(** * object_recognizer: the ObjDetector node of src/object_recognizer_node.cpp

    A shallow embedding of the class [ObjDetector] and of [main]'s polling
    loop, and the properties of the feature-based localization pipeline
    that follow from the code.

    The node is glue around OpenCV, cv_bridge and ROS.  Those libraries are
    not part of the repository: they enter the development as one record of
    collaborators ([Collaborators]) over which every definition and theorem
    is parametric.  Calls into them are logged, in program order, in a trace
    of [event]s, so that "the solver was invoked" or "this frame was never
    looked at" are statements about a run. *)

From Stdlib Require Import List ZArith Bool String Lia.
From Stdlib Require Import Floats.PrimFloat Numbers.Cyclic.Int63.Uint63.
Import ListNotations.

Set Implicit Arguments.

(** ** Plain data *)

(** [float] and [double] values are IEEE binary64 numbers here.  Every
    binary32 value is a binary64 value, so the conversions the code makes
    from [float] to [double] (line 97, and the comparison of line 108) are
    the identity. *)

(** [cv::Point2f]. *)
Record Point2f : Set := mkPoint2f { p2_x : float; p2_y : float }.

(** [geometry_msgs::Point32]. *)
Record Point32 : Set := mkPoint32 { x : float; y : float; z : float }.

(** [cv::KeyPoint]. *)
Record KeyPoint : Set := mkKeyPoint {
  pt : Point2f;
  size : float;
  angle : float;
  response : float;
  octave : Z;
  class_id : Z
}.

(** [cv::DMatch]. *)
Record DMatch : Set := mkDMatch {
  queryIdx : Z;
  trainIdx : Z;
  imgIdx : Z;
  distance : float
}.

(** The point of lines 152-155. *)
Definition placeholder : Point32 := mkPoint32 0 0 0.

(** A non-negative integer rounded to the 24 significant bits of a binary32
    number, to nearest and ties to even: below 2^24 nothing is lost, above
    it the low bits are rounded away. *)
Definition round_to_binary32 (m : Z) : Z :=
  let e := (Z.log2 m - 23)%Z in
  if (e <=? 0)%Z then m
  else
    let q := Z.shiftr m e in
    let r := Z.land m (Z.ones e) in
    let half := Z.shiftl 1 (e - 1) in
    let q :=
      if (r <? half)%Z then q
      else if (half <? r)%Z then (q + 1)%Z
      else if Z.even q then q else (q + 1)%Z in
    Z.shiftl q e.

(** [int] to [float], as in [cv::Point2f(cvPoint(a, b))]: the value of the
    binary32 number nearest to [n], for [n] a C [int].  Every binary32
    value is held exactly by the binary64 number that carries it here. *)
Definition float_of_int (n : Z) : float :=
  if (n <? 0)%Z
  then PrimFloat.opp (PrimFloat.of_uint63 (Uint63.of_Z (round_to_binary32 (- n))))
  else PrimFloat.of_uint63 (Uint63.of_Z (round_to_binary32 n)).

(** [cvPoint(a, b)] converted to [cv::Point2f]. *)
Definition cvPoint (a b : Z) : Point2f :=
  mkPoint2f (float_of_int a) (float_of_int b).

(** [v[i]] on a [std::vector] with an [int] index: defined only in range. *)
Definition vec_at (A : Type) (v : list A) (i : Z) : option A :=
  if (i <? 0)%Z then None else nth_error v (Z.to_nat i).

(** ** The match filter (lines 91-110) *)

Module MatchFilter.

(** One turn of the loop of lines 95-100 on the pair
    [(max_dist, min_dist)]. *)
Definition scan_step (acc : float * float) (m : DMatch) : float * float :=
  let '(max_dist, min_dist) := acc in
  let dist := distance m in
  let min_dist := if PrimFloat.ltb dist min_dist then dist else min_dist in
  let max_dist := if PrimFloat.ltb max_dist dist then dist else max_dist in
  (max_dist, min_dist).

(** Lines 91-100: [max_dist] starts at 0 and [min_dist] at 100. *)
Definition scan (matches : list DMatch) : float * float :=
  fold_left scan_step matches (0%float, 100%float).

Definition max_dist (matches : list DMatch) : float := fst (scan matches).
Definition min_dist (matches : list DMatch) : float := snd (scan matches).

(** [3*min_dist] of line 108. *)
Definition threshold (matches : list DMatch) : float :=
  PrimFloat.mul 3%float (min_dist matches).

(** One turn of the loop of lines 106-110. *)
Definition keep_step (thr : float) (good : list DMatch) (m : DMatch)
  : list DMatch :=
  if PrimFloat.ltb (distance m) thr then good ++ [m] else good.

(** Lines 104-110. *)
Definition good_matches (matches : list DMatch) : list DMatch :=
  fold_left (keep_step (threshold matches)) matches [].

(** The filter as the specification words it, for comparison with the
    code: the minimum is taken over the matches alone and is 0 when there
    are none. *)
Definition spec_min_dist (matches : list DMatch) : float :=
  match matches with
  | [] => 0%float
  | m :: rest =>
      fold_left (fun acc m' =>
                   if PrimFloat.ltb (distance m') acc then distance m' else acc)
                rest (distance m)
  end.

Definition spec_threshold (matches : list DMatch) : float :=
  PrimFloat.mul 3%float (spec_min_dist matches).

Definition spec_filter (matches : list DMatch) : list DMatch :=
  filter (fun m => PrimFloat.ltb (distance m) (spec_threshold matches)) matches.

End MatchFilter.

(** Lines 112-120: the points of the good matches, looked up by index in the
    two keypoint vectors.  An index out of range is undefined behaviour in
    the source; the model reports it as [None]. *)
Fixpoint gather (obj_keypoints img_keypoints : list KeyPoint)
         (good_matches : list DMatch) (obj scene : list Point2f)
  : option (list Point2f * list Point2f) :=
  match good_matches with
  | [] => Some (obj, scene)
  | m :: rest =>
      match vec_at obj_keypoints (queryIdx m), vec_at img_keypoints (trainIdx m) with
      | Some ko, Some ki =>
          gather obj_keypoints img_keypoints rest (obj ++ [pt ko]) (scene ++ [pt ki])
      | _, _ => None
      end
  end.

(** Every index of every match is a valid position of its vector. *)
Definition indices_in_range (obj_keypoints img_keypoints : list KeyPoint)
           (ms : list DMatch) : Prop :=
  Forall (fun m =>
            (0 <= queryIdx m < Z.of_nat (List.length obj_keypoints))%Z /\
            (0 <= trainIdx m < Z.of_nat (List.length img_keypoints))%Z) ms.

(** ** Control: exceptions, [exit], and the trace of calls *)

(** The two exception classes the source names in a [catch]. *)
Inductive exn : Set := cv_bridge_Exception | cv_Exception.

Definition exn_eqb (a b : exn) : bool :=
  match a, b with
  | cv_bridge_Exception, cv_bridge_Exception => true
  | cv_Exception, cv_Exception => true
  | _, _ => false
  end.

(** How a piece of code ends: it returns a value, leaves by an exception,
    ends the process with [exit], or runs into undefined behaviour.  The
    object's fields are meaningful in the first two cases only. *)
Inductive result (S A : Type) : Type :=
| Ret (a : A) (s : S)
| Throw (e : exn) (s : S)
| Exit (code : Z)
| Undefined.

Arguments Ret {S A} a s.
Arguments Throw {S A} e s.
Arguments Exit {S A} code.
Arguments Undefined {S A}.

Section Monad.
Variables E S : Type.

(** A member function: from the fields before the call to the calls it
    made and the way it ended. *)
Definition M (A : Type) : Type := S -> list E * result S A.

Definition ret (A : Type) (a : A) : M A := fun s => ([], Ret a s).

Definition bind (A B : Type) (m : M A) (k : A -> M B) : M B :=
  fun s =>
    match m s with
    | (tr, Ret a s') => let (tr', r) := k a s' in (tr ++ tr', r)
    | (tr, Throw e s') => (tr, Throw e s')
    | (tr, Exit c) => (tr, Exit c)
    | (tr, Undefined) => (tr, Undefined)
    end.

Definition emit (e : E) : M unit := fun s => ([e], Ret tt s).
Definition get : M S := fun s => ([], Ret s s).
Definition modify (f : S -> S) : M unit := fun s => ([], Ret tt (f s)).
Definition throw (A : Type) (e : exn) : M A := fun s => ([], Throw e s).
Definition exit (A : Type) (code : Z) : M A := fun _ => ([], Exit code).
Definition undefined (A : Type) : M A := fun _ => ([], Undefined).

(** [try { body } catch (e) { handler }]. *)
Definition try_catch (A : Type) (body : M A) (e : exn) (handler : M A) : M A :=
  fun s =>
    match body s with
    | (tr, Throw e' s') =>
        if exn_eqb e e' then let (tr', r) := handler s' in (tr ++ tr', r)
        else (tr, Throw e' s')
    | other => other
    end.
End Monad.

Arguments ret {E S A} a.
Arguments bind {E S A B} m k.
Arguments emit {E S} e.
Arguments get {E S}.
Arguments modify {E S} f.
Arguments throw {E S A} e.
Arguments exit {E S A} code.
Arguments undefined {E S A}.
Arguments try_catch {E S A} body e handler.

Declare Scope node_scope.
Delimit Scope node_scope with node.
Notation "x <- c ;; k" := (bind c (fun x => k))
  (at level 61, c at next level, right associativity) : node_scope.
Notation "' pat <- c ;; k" := (bind c (fun v => match v with pat => k end))
  (at level 61, pat pattern, c at next level, right associativity) : node_scope.
Notation "c ;; k" := (bind c (fun _ => k))
  (at level 61, right associativity) : node_scope.

(** ** The collaborators *)

(** What the node takes from cv_bridge and OpenCV.  [Msg] is
    [sensor_msgs::Image]; [Mat] is [cv::Mat], which the source uses for
    images, descriptor tables and the homography alike.  A call that the
    source guards with [try] may raise: [None] stands for the exception of
    the matching [catch].  [detector_detect], [extractor_compute] and
    [matcher_match] are the methods
    of the detector, extractor and matcher the constructor creates ("ORB",
    "FREAK", "BruteForce-Hamming"); [compute] also returns the keypoint
    vector, which OpenCV prunes in place.  The calls the source makes
    outside any [try] (lines 76, 84-85, 89, 148-149) are taken to return:
    an exception from one of them would end the process, and no run of
    that kind is described here. *)
Record Collaborators : Type := {
  Msg : Type;
  Mat : Type;
  imread : string -> Mat;
  cols : Mat -> Z;
  rows : Mat -> Z;
  toCvCopy : Msg -> option Mat;
  cvtColor : Mat -> Mat;
  detector_detect : Mat -> list KeyPoint;
  extractor_compute : Mat -> list KeyPoint -> list KeyPoint * Mat;
  matcher_match : Mat -> Mat -> list DMatch;
  findHomography : list Point2f -> list Point2f -> option Mat;
  perspectiveTransform : Mat -> option (Point2f -> Point2f);
  line : Mat -> Point2f -> Point2f -> Mat
}.

(** The calls a run makes, with their arguments. *)
Inductive event (cv : Collaborators) : Type :=
| E_toCvCopy (msg : Msg cv)
| E_ROS_ERROR
| E_cvtColor (src : Mat cv)
| E_detect (img : Mat cv)
| E_compute (img : Mat cv) (keypoints : list KeyPoint)
| E_match (query train : Mat cv)
| E_findHomography (obj scene : list Point2f)
| E_perspectiveTransform (src : list Point2f) (H : Mat cv)
| E_line (p q : Point2f)
| E_imshow (img : Mat cv)
| E_waitKey (delay : Z)
| E_cout_missing (n : Z)
| E_ros_init (argv : list string)
| E_imread (filename : string).

Arguments E_toCvCopy {cv} msg.
Arguments E_ROS_ERROR {cv}.
Arguments E_cvtColor {cv} src.
Arguments E_detect {cv} img.
Arguments E_compute {cv} img keypoints.
Arguments E_match {cv} query train.
Arguments E_findHomography {cv} obj scene.
Arguments E_perspectiveTransform {cv} src H.
Arguments E_line {cv} p q.
Arguments E_imshow {cv} img.
Arguments E_waitKey {cv} delay.
Arguments E_cout_missing {cv} n.
Arguments E_ros_init {cv} argv.
Arguments E_imread {cv} filename.

(** ** The class *)

(** The fields of [ObjDetector] (lines 24-36).  The detector, extractor and
    matcher objects are the collaborators above; the transport handles have
    no part in the computation.  A null [ImageConstPtr] is [None]. *)
Record ObjDetector (cv : Collaborators) : Type := mkObjDetector {
  obj_img : Mat cv;
  obj_keypoints : list KeyPoint;
  obj_descriptors : Mat cv;
  haveImageFrame : bool;
  haveMapFrame : bool;
  lastImageFrame : option (Msg cv);
  lastMapFrame : option (Msg cv)
}.

Arguments mkObjDetector {cv}.

(** What the specification calls the ReferenceModel. *)
Definition reference (cv : Collaborators) (d : ObjDetector cv)
  : Mat cv * list KeyPoint * Mat cv :=
  (obj_img d, obj_keypoints d, obj_descriptors d).

Definition set_lastImageFrame (cv : Collaborators) (v : option (Msg cv))
           (d : ObjDetector cv) : ObjDetector cv :=
  mkObjDetector (obj_img d) (obj_keypoints d) (obj_descriptors d)
                (haveImageFrame d) (haveMapFrame d) v (lastMapFrame d).

Definition set_lastMapFrame (cv : Collaborators) (v : option (Msg cv))
           (d : ObjDetector cv) : ObjDetector cv :=
  mkObjDetector (obj_img d) (obj_keypoints d) (obj_descriptors d)
                (haveImageFrame d) (haveMapFrame d) (lastImageFrame d) v.

(** What the pipeline shows for a frame, read off the lines a run draws:
    the four segments around the object, or nothing. *)
Inductive LocalizationResult : Set :=
| Found (corners : list Point2f)
| NotFound.

Fixpoint line_starts (cv : Collaborators) (tr : list (event cv)) : list Point2f :=
  match tr with
  | [] => []
  | E_line p _ :: rest => p :: line_starts rest
  | _ :: rest => line_starts rest
  end.

Definition localization (cv : Collaborators) (tr : list (event cv))
  : LocalizationResult :=
  match line_starts tr with
  | [] => NotFound
  | corners => Found corners
  end.

(** Messages delivered by one [ros::spinOnce]. *)
Inductive callback (cv : Collaborators) : Type :=
| image_callback (msg : Msg cv)
| map_callback (msg : Msg cv).

Arguments image_callback {cv} msg.
Arguments map_callback {cv} msg.

Section Node.
Context (cv : Collaborators).

Local Open Scope node_scope.

Definition Node : Type -> Type := M (event cv) (ObjDetector cv).

(** *** Calls into the libraries *)

Definition call_toCvCopy (msg : Msg cv) : Node (Mat cv) :=
  emit (E_toCvCopy msg) ;;
  match toCvCopy cv msg with
  | Some img_ptr => ret img_ptr
  | None => throw cv_bridge_Exception
  end.

Definition ROS_ERROR : Node unit := emit E_ROS_ERROR.

Definition call_cvtColor (src : Mat cv) : Node (Mat cv) :=
  emit (E_cvtColor src) ;; ret (cvtColor cv src).

Definition call_detect (img : Mat cv) : Node (list KeyPoint) :=
  emit (E_detect img) ;; ret (detector_detect cv img).

Definition call_compute (img : Mat cv) (keypoints : list KeyPoint)
  : Node (list KeyPoint * Mat cv) :=
  emit (E_compute img keypoints) ;; ret (extractor_compute cv img keypoints).

Definition call_match (query train : Mat cv) : Node (list DMatch) :=
  emit (E_match query train) ;; ret (matcher_match cv query train).

(** [cv::findHomography(obj, scene, CV_RANSAC)]. *)
Definition call_findHomography (obj scene : list Point2f) : Node (Mat cv) :=
  emit (E_findHomography obj scene) ;;
  match findHomography cv obj scene with
  | Some H => ret H
  | None => throw cv_Exception
  end.

Definition call_perspectiveTransform (src : list Point2f) (H : Mat cv)
  : Node (list Point2f) :=
  emit (E_perspectiveTransform src H) ;;
  match perspectiveTransform cv H with
  | Some f => ret (map f src)
  | None => throw cv_Exception
  end.

(** [cv::line(color, p, q, cv::Scalar(0, 255, 0), 4)]. *)
Definition call_line (color : Mat cv) (p q : Point2f) : Node (Mat cv) :=
  emit (E_line p q) ;; ret (line cv color p q).

Definition call_imshow (img : Mat cv) : Node unit := emit (E_imshow img).
Definition call_waitKey (delay : Z) : Node unit := emit (E_waitKey delay).

(** *** The constructor (lines 38-55) *)

Definition ObjDetector_new (calib_image_name : string) : ObjDetector cv :=
  let obj_img := imread cv calib_image_name in
  let obj_keypoints := detector_detect cv obj_img in
  let '(obj_keypoints, obj_descriptors) := extractor_compute cv obj_img obj_keypoints in
  mkObjDetector obj_img obj_keypoints obj_descriptors false false None None.

(** *** [find_object] (lines 60-157) *)

(** Lines 126-130: the corners of the calibration image. *)
Definition obj_corners (this : ObjDetector cv) : list Point2f :=
  [ cvPoint 0 0;
    cvPoint (cols cv (obj_img this)) 0;
    cvPoint (cols cv (obj_img this)) (rows cv (obj_img this));
    cvPoint 0 (rows cv (obj_img this)) ].

(** The body of the [try] of lines 122-141; it yields the picture with
    the outline drawn.  [perspectiveTransform] gives [scene_corners] one
    point per corner, so the four reads of lines 138-141 are in range. *)
Definition try_body (color : Mat cv) (obj scene : list Point2f)
  : Node (Mat cv) :=
  H <- call_findHomography obj scene ;;
  this <- get ;;
  scene_corners <- call_perspectiveTransform (obj_corners this) H ;;
  match scene_corners with
  | [c0; c1; c2; c3] =>
      color <- call_line color c0 c1 ;;
      color <- call_line color c1 c2 ;;
      color <- call_line color c2 c3 ;;
      color <- call_line color c3 c0 ;;
      ret color
  | _ => undefined
  end.

(** Lines 122-144: the [try] with its empty [catch]. *)
Definition estimate (color : Mat cv) (obj scene : list Point2f)
  : Node (Mat cv) :=
  try_catch (try_body color obj scene) cv_Exception (ret color).

Definition find_object (msg : Msg cv) (mapMsg : option (Msg cv))
  : Node Point32 :=
  img_ptr <- try_catch (call_toCvCopy msg) cv_bridge_Exception
                       (ROS_ERROR ;; exit (-1)) ;;
  img <- call_cvtColor img_ptr ;;
  let color := img_ptr in
  img_keypoints <- call_detect img ;;
  '(img_keypoints, img_descriptors) <- call_compute img img_keypoints ;;
  this <- get ;;
  matches <- call_match (obj_descriptors this) img_descriptors ;;
  let good_matches := MatchFilter.good_matches matches in
  match gather (obj_keypoints this) img_keypoints good_matches [] [] with
  | None => undefined
  | Some (obj, scene) =>
      color <- estimate color obj scene ;;
      call_imshow color ;;
      call_waitKey 1 ;;
      ret placeholder
  end.

(** What lines 70-120 compute for a decoded frame, as values: the
    keypoints and descriptors of the frame, its matches against the
    calibration image, and the two point vectors. *)
Definition frame_features (img_ptr : Mat cv) : list KeyPoint * Mat cv :=
  let img := cvtColor cv img_ptr in
  extractor_compute cv img (detector_detect cv img).

Definition frame_matches (this : ObjDetector cv) (img_ptr : Mat cv)
  : list DMatch :=
  matcher_match cv (obj_descriptors this) (snd (frame_features img_ptr)).

Definition frame_correspondences (this : ObjDetector cv) (img_ptr : Mat cv)
  : option (list Point2f * list Point2f) :=
  gather (obj_keypoints this) (fst (frame_features img_ptr))
         (MatchFilter.good_matches (frame_matches this img_ptr)) [] [].

(** The matcher's indices that survive the filter are positions of the
    two keypoint vectors. *)
Definition well_indexed (this : ObjDetector cv) (img_ptr : Mat cv) : Prop :=
  indices_in_range (obj_keypoints this) (fst (frame_features img_ptr))
                   (MatchFilter.good_matches (frame_matches this img_ptr)).

(** The calls of lines 63-89 on a frame that decodes to [img_ptr]. *)
Definition front_trace (this : ObjDetector cv) (msg : Msg cv) (img_ptr : Mat cv)
  : list (event cv) :=
  let img := cvtColor cv img_ptr in
  [ E_toCvCopy msg; E_cvtColor img_ptr; E_detect img;
    E_compute img (detector_detect cv img);
    E_match (obj_descriptors this) (snd (frame_features img_ptr)) ].

(** The [try] block is left by an exception: the solver raises, or the
    projection through the matrix it returned does. *)
Definition homography_raises (obj scene : list Point2f) : bool :=
  match findHomography cv obj scene with
  | None => true
  | Some H =>
      match perspectiveTransform cv H with
      | None => true
      | Some _ => false
      end
  end.

(** A piece of code that leaves the calibration image, its keypoints and
    its descriptors as it found them, however it ends. *)
Definition keeps_reference (A : Type) (m : Node A) : Prop :=
  forall this tr r,
    m this = (tr, r) ->
    match r with
    | Ret _ this' | Throw _ this' => reference this' = reference this
    | Exit _ | Undefined => True
    end.

(** Both frame slots empty, everything else as it was. *)
Definition consumed (this : ObjDetector cv) : ObjDetector cv :=
  set_lastMapFrame None (set_lastImageFrame None this).

(** *** [detect] and the two callbacks (lines 159-174) *)

Definition detect : Node unit :=
  this <- get ;;
  match lastImageFrame this with
  | Some msg =>
      object_loc <- find_object msg (lastMapFrame this) ;;
      modify (set_lastImageFrame None) ;;
      modify (set_lastMapFrame None)
  | None => ret tt
  end.

Definition process_image_frame (msg : Msg cv) : Node unit :=
  modify (set_lastImageFrame (Some msg)).

Definition process_map_frame (msg : Msg cv) : Node unit :=
  modify (set_lastMapFrame (Some msg)).

(** *** [main] (lines 177-196) *)

Definition deliver (c : callback cv) : Node unit :=
  match c with
  | image_callback msg => process_image_frame msg
  | map_callback msg => process_map_frame msg
  end.

(** [ros::spinOnce()], given the messages it hands over. *)
Fixpoint spinOnce (pending : list (callback cv)) : Node unit :=
  match pending with
  | [] => ret tt
  | c :: later => deliver c ;; spinOnce later
  end.

(** The [while] loop, one list of deliveries per turn, for as many turns
    as [ros::ok()] holds. *)
Fixpoint main_loop (turns : list (list (callback cv))) : Node unit :=
  match turns with
  | [] => ret tt
  | pending :: later => spinOnce pending ;; detect ;; main_loop later
  end.

(** The constructor again, with the calls it makes on the calibration
    image (lines 48-50). *)
Definition construct (calib_image_name : string)
  : list (event cv) * ObjDetector cv :=
  let obj_img := imread cv calib_image_name in
  ([ E_imread calib_image_name;
     E_detect obj_img;
     E_compute obj_img (detector_detect cv obj_img) ],
   ObjDetector_new calib_image_name).

(** [main].  [ros::init] takes [argc] and [argv] by reference and takes the
    ROS remapping arguments out of them; [ros_init] gives the arguments it
    leaves, and the test of line 181 is on those. *)
Definition main (ros_init : list string -> list string) (argv : list string)
           (turns : list (list (callback cv)))
  : list (event cv) * result (ObjDetector cv) Z :=
  match ros_init argv with
  | _ :: calib_image_name :: _ =>
      let (started, detector) := construct calib_image_name in
      let (tr, r) := (main_loop turns ;; ret 0%Z) detector in
      (E_ros_init argv :: started ++ tr, r)
  | remaining =>
      ([ E_ros_init argv;
         E_cout_missing (2 - Z.of_nat (List.length remaining)) ], Exit (-1))
  end.

End Node.

Arguments detect {cv}.

(** ** What a run shows *)

Section Observations.
Context (cv : Collaborators).

(** The last image message among the deliveries of one [ros::spinOnce],
    and the last map message. *)
Fixpoint last_image (pending : list (callback cv)) : option (Msg cv) :=
  match pending with
  | [] => None
  | image_callback msg :: later =>
      match last_image later with
      | Some newer => Some newer
      | None => Some msg
      end
  | map_callback _ :: later => last_image later
  end.

Fixpoint last_map (pending : list (callback cv)) : option (Msg cv) :=
  match pending with
  | [] => None
  | map_callback msg :: later =>
      match last_map later with
      | Some newer => Some newer
      | None => Some msg
      end
  | image_callback _ :: later => last_map later
  end.

(** The slots once those deliveries are made. *)
Definition after_deliveries (pending : list (callback cv))
           (this : ObjDetector cv) : ObjDetector cv :=
  let this :=
    match last_image pending with
    | Some msg => set_lastImageFrame (Some msg) this
    | None => this
    end in
  match last_map pending with
  | Some msg => set_lastMapFrame (Some msg) this
  | None => this
  end.

(** How many frames a run hands to the decoder, and how often it calls the
    solver. *)
Fixpoint decode_count (tr : list (event cv)) : nat :=
  match tr with
  | [] => 0
  | E_toCvCopy _ :: rest => S (decode_count rest)
  | _ :: rest => decode_count rest
  end.

Fixpoint solver_count (tr : list (event cv)) : nat :=
  match tr with
  | [] => 0
  | E_findHomography _ _ :: rest => S (solver_count rest)
  | _ :: rest => solver_count rest
  end.

(** The files a run reads with [cv::imread]. *)
Fixpoint imreads (tr : list (event cv)) : list string :=
  match tr with
  | [] => []
  | E_imread filename :: rest => filename :: imreads rest
  | _ :: rest => imreads rest
  end.

(** The segments a run draws, in the order it draws them. *)
Fixpoint segments (tr : list (event cv)) : list (Point2f * Point2f) :=
  match tr with
  | [] => []
  | E_line p q :: rest => (p, q) :: segments rest
  | _ :: rest => segments rest
  end.

(** The picture a run puts on screen, if it gets that far. *)
Fixpoint shown (tr : list (event cv)) : list (Mat cv) :=
  match tr with
  | [] => []
  | E_imshow img :: rest => img :: shown rest
  | _ :: rest => shown rest
  end.

End Observations.

(** A distance that is +0 or above it, as every Hamming distance is. *)
Definition zero_or_positive (d : float) : Prop :=
  PrimFloat.ltb d 0%float = false /\
  (d = 0%float \/ PrimFloat.ltb 0%float d = true).

(** ** A stand-in for the libraries *)

(** Collaborators small enough to run, used to exercise the theorems below
    on concrete frames.  Frames and matrices are numbers: frame 1 shows the
    object, frame 2 shows four keypoints on one line, frame 0 is blank, and
    a negative frame cannot be decoded.  The solver raises on fewer than
    four points, as OpenCV 2.4's does, and on collinear scene points. *)
Module Fixture.

Definition kp (a b : float) : KeyPoint :=
  mkKeyPoint (mkPoint2f a b) 1%float 0%float 0%float 0%Z (-1)%Z.

Definition object_keypoints : list KeyPoint :=
  [kp 0 0; kp 8 0; kp 8 6; kp 0 6]%float.

Definition collinear_keypoints : list KeyPoint :=
  [kp 0 0; kp 1 0; kp 2 0; kp 3 0]%float.

Definition four_matches : list DMatch :=
  [ mkDMatch 0 0 0 10%float; mkDMatch 1 1 0 10%float;
    mkDMatch 2 2 0 12%float; mkDMatch 3 3 0 11%float ].

Definition collinear (pts : list Point2f) : bool :=
  match pts with
  | [] => true
  | p :: rest => forallb (fun q => PrimFloat.eqb (p2_y q) (p2_y p)) rest
  end.

Definition cv : Collaborators := {|
  Msg := Z;
  Mat := Z;
  imread := fun _ => 1%Z;
  cols := fun _ => 8%Z;
  rows := fun _ => 6%Z;
  toCvCopy := fun msg => if (msg <? 0)%Z then None else Some msg;
  cvtColor := fun src => src;
  detector_detect := fun img =>
    if (img =? 1)%Z then object_keypoints
    else if (img =? 2)%Z then collinear_keypoints
    else [];
  extractor_compute := fun img keypoints => (keypoints, img);
  matcher_match := fun query train =>
    if (train =? 1)%Z || (train =? 2)%Z then four_matches else [];
  findHomography := fun obj scene =>
    if (List.length obj <? 4)%nat || collinear scene then None else Some 0%Z;
  perspectiveTransform := fun H => Some (fun p => p);
  line := fun color _ _ => color
|}.

(** The same libraries, except that the solver does not look at the
    geometry: on four points or more it returns a matrix, the zero matrix
    when the points are degenerate, through which the projection sends
    every point to the origin (as OpenCV 2.4 does when a fit fails without
    an assertion). *)
Definition lenient_cv : Collaborators := {|
  Msg := Z;
  Mat := Z;
  imread := imread cv;
  cols := cols cv;
  rows := rows cv;
  toCvCopy := toCvCopy cv;
  cvtColor := cvtColor cv;
  detector_detect := detector_detect cv;
  extractor_compute := extractor_compute cv;
  matcher_match := matcher_match cv;
  findHomography := fun obj scene =>
    if (List.length obj <? 4)%nat then None else Some 0%Z;
  perspectiveTransform := fun H => Some (fun _ => mkPoint2f 0 0);
  line := line cv
|}.

Definition lenient_start : ObjDetector lenient_cv :=
  ObjDetector_new lenient_cv "object.png".

(** The points of the collinear frame 2. *)
Definition collinear_scene : list Point2f :=
  [mkPoint2f 0 0; mkPoint2f 1 0; mkPoint2f 2 0; mkPoint2f 3 0].

(** [ros::init] on a command line without remapping arguments. *)
Definition no_remapping (argv : list string) : list string := argv.

(** Two matches whose distances all exceed 100, as Hamming distances
    between 512-bit FREAK descriptors can. *)
Definition near_match : DMatch := mkDMatch 0 0 0 120%float.
Definition far_match : DMatch := mkDMatch 1 1 0 330%float.
Definition distant_matches : list DMatch := [near_match; far_match].

(** An exact match next to an ordinary one. *)
Definition exact_matches : list DMatch :=
  [ mkDMatch 0 0 0 5%float; mkDMatch 1 1 0 0%float; mkDMatch 2 2 0 7%float ].

(** Five matches with the distances of the specification's filter
    example. *)
Definition five_matches : list DMatch :=
  [ mkDMatch 0 7 0 1%float; mkDMatch 1 3 0 2%float; mkDMatch 2 9 0 3%float;
    mkDMatch 3 4 0 10%float; mkDMatch 4 0 0 50%float ].

(** The detector as [main] builds it from a calibration image. *)
Definition start : ObjDetector cv := ObjDetector_new cv "object.png".

(** Five turns of [main]'s loop: two frames before the first tick, a quiet
    turn, a map message, the collinear frame, another map message. *)
Definition session : list (list (callback cv)) :=
  [ [image_callback (cv:=cv) 0%Z; image_callback (cv:=cv) 1%Z]; [];
    [map_callback (cv:=cv) 5%Z]; [image_callback (cv:=cv) 2%Z];
    [map_callback (cv:=cv) 5%Z] ].

(** Two turns in which only a map message arrives. *)
Definition idle_turns : list (list (callback cv)) :=
  [ [map_callback (cv:=cv) 5%Z]; [] ].

(** The detector with frame [f] pending, and with map message [m] besides. *)
Definition pending (f : Z) : ObjDetector cv :=
  set_lastImageFrame (cv:=cv) (Some f) start.

Definition pending_with_map (f : Z) (m : option Z) : ObjDetector cv :=
  set_lastMapFrame (cv:=cv) m (pending f).

End Fixture.

(** * Properties *)

(** ** The match filter *)

Module MatchFilterFacts.
Import MatchFilter.

Lemma keep_fold (thr : float) (ms acc : list DMatch) :
  fold_left (keep_step thr) ms acc
  = acc ++ filter (fun m => PrimFloat.ltb (distance m) thr) ms.
Proof.
  revert acc; induction ms as [|m ms IH]; intros acc; simpl.
  - now rewrite app_nil_r.
  - rewrite IH. unfold keep_step.
    destruct (PrimFloat.ltb (distance m) thr); simpl.
    + now rewrite <- app_assoc.
    + reflexivity.
Qed.

(** The second loop is a filter by the threshold the first loop found. *)
Lemma good_matches_filter (ms : list DMatch) :
  good_matches ms
  = filter (fun m => PrimFloat.ltb (distance m) (threshold ms)) ms.
Proof. unfold good_matches. now rewrite keep_fold. Qed.

Lemma good_matches_incl (ms : list DMatch) : incl (good_matches ms) ms.
Proof.
  rewrite good_matches_filter. intros m Hm.
  apply filter_In in Hm. tauto.
Qed.

Lemma good_matches_nil : good_matches [] = [].
Proof. reflexivity. Qed.

(** No distance below 100 ever lowers the running minimum. *)
Lemma scan_capped (ms : list DMatch) :
  Forall (fun m => PrimFloat.ltb (distance m) 100%float = false) ms ->
  forall mx, snd (fold_left scan_step ms (mx, 100%float)) = 100%float.
Proof.
  induction 1 as [|m ms Hm _ IH]; intros mx; simpl; [reflexivity|].
  rewrite Hm. apply IH.
Qed.

(** When no match is closer than 100, the threshold is 300 whatever the
    distances are. *)
Lemma threshold_capped (ms : list DMatch) :
  Forall (fun m => PrimFloat.ltb (distance m) 100%float = false) ms ->
  min_dist ms = 100%float /\ threshold ms = 300%float.
Proof.
  intros Hms. unfold threshold, min_dist, scan.
  rewrite (scan_capped Hms). split; reflexivity.
Qed.

End MatchFilterFacts.

(** ** Index lookups *)

Lemma vec_at_in_range (A : Type) (v : list A) (i : Z) :
  (0 <= i < Z.of_nat (List.length v))%Z -> exists a, vec_at v i = Some a.
Proof.
  intros [Hlo Hhi]. unfold vec_at.
  destruct (Z.ltb_spec i 0) as [Hneg|_]; [lia|].
  destruct (nth_error v (Z.to_nat i)) as [a|] eqn:E.
  - now exists a.
  - apply nth_error_None in E. lia.
Qed.

Lemma gather_in_range (okps ikps : list KeyPoint) (good : list DMatch) :
  indices_in_range okps ikps good ->
  forall obj scene, exists obj' scene',
    gather okps ikps good obj scene = Some (obj', scene').
Proof.
  unfold indices_in_range.
  induction 1 as [|m good [Hq Ht] _ IH]; intros obj scene; simpl.
  - now exists obj, scene.
  - destruct (vec_at_in_range okps Hq) as [ko ->].
    destruct (vec_at_in_range ikps Ht) as [ki ->].
    apply IH.
Qed.

Lemma gather_length (okps ikps : list KeyPoint) (good : list DMatch) :
  forall obj scene obj' scene',
    gather okps ikps good obj scene = Some (obj', scene') ->
    List.length obj' = (List.length obj + List.length good)%nat /\
    List.length scene' = (List.length scene + List.length good)%nat.
Proof.
  induction good as [|m good IH]; intros obj scene obj' scene'; simpl.
  - intros [= <- <-]. lia.
  - destruct (vec_at okps (queryIdx m)) as [ko|]; [|discriminate].
    destruct (vec_at ikps (trainIdx m)) as [ki|]; [|discriminate].
    intros H. apply IH in H. rewrite !length_app in H. simpl in H. lia.
Qed.

(** ** Runs of the node *)

Section Runs.
Context {cv : Collaborators}.
Implicit Types (st : ObjDetector cv) (msg : Msg cv) (mapMsg : option (Msg cv)).

Local Open Scope node_scope.

(** The calls of the [try] block and the picture it leaves. *)
Lemma estimate_run (color : Mat cv) (obj scene : list Point2f) st :
  estimate color obj scene st =
  match findHomography cv obj scene with
  | None => ([E_findHomography obj scene], Ret color st)
  | Some H =>
      match perspectiveTransform cv H with
      | None =>
          ([E_findHomography obj scene;
            E_perspectiveTransform (obj_corners st) H], Ret color st)
      | Some f =>
          let c0 := f (cvPoint 0 0) in
          let c1 := f (cvPoint (cols cv (obj_img st)) 0) in
          let c2 := f (cvPoint (cols cv (obj_img st)) (rows cv (obj_img st))) in
          let c3 := f (cvPoint 0 (rows cv (obj_img st))) in
          ([E_findHomography obj scene;
            E_perspectiveTransform (obj_corners st) H;
            E_line c0 c1; E_line c1 c2; E_line c2 c3; E_line c3 c0],
           Ret (line cv (line cv (line cv (line cv color c0 c1) c1 c2) c2 c3) c3 c0) st)
      end
  end.
Proof.
  unfold estimate, try_catch, try_body, bind, call_findHomography,
    call_perspectiveTransform, call_line, emit, get, ret, throw; simpl.
  destruct (findHomography cv obj scene) as [H|]; simpl; [|reflexivity].
  destruct (perspectiveTransform cv H) as [f|]; reflexivity.
Qed.

(** [estimate] always returns, with the fields as they were. *)
Lemma estimate_returns (color : Mat cv) (obj scene : list Point2f) st :
  exists tr color',
    estimate color obj scene st = (E_findHomography obj scene :: tr, Ret color' st).
Proof.
  rewrite estimate_run.
  destruct (findHomography cv obj scene) as [H|]; [|now eexists _, _].
  destruct (perspectiveTransform cv H) as [f|]; now eexists _, _.
Qed.

(** [find_object], case by case: the frame does not decode; an index is out
    of range; otherwise the run goes through [estimate] and returns. *)
Lemma find_object_run msg mapMsg st :
  find_object msg mapMsg st =
  match toCvCopy cv msg with
  | None => ([E_toCvCopy msg; E_ROS_ERROR], Exit (-1))
  | Some img_ptr =>
      match frame_correspondences st img_ptr with
      | None => (front_trace st msg img_ptr, Undefined)
      | Some (obj, scene) =>
          match estimate img_ptr obj scene st with
          | (tr, Ret color st') =>
              (front_trace st msg img_ptr ++ tr ++ [E_imshow color; E_waitKey 1],
               Ret placeholder st')
          | (tr, Throw e st') => (front_trace st msg img_ptr ++ tr, Throw e st')
          | (tr, Exit c) => (front_trace st msg img_ptr ++ tr, Exit c)
          | (tr, Undefined) => (front_trace st msg img_ptr ++ tr, Undefined)
          end
      end
  end.
Proof.
  unfold find_object, frame_correspondences, frame_matches, front_trace,
    frame_features.
  unfold try_catch at 1. unfold call_toCvCopy, bind at 1 2, emit, throw, ret at 1.
  destruct (toCvCopy cv msg) as [img_ptr|]; simpl; [|reflexivity].
  unfold bind, call_cvtColor, call_detect, call_compute, call_match, emit, ret,
    get, undefined, call_imshow, call_waitKey; simpl.
  destruct (extractor_compute cv (cvtColor cv img_ptr)
              (detector_detect cv (cvtColor cv img_ptr))) as [kps descs]; simpl.
  destruct (gather (obj_keypoints st) kps
              (MatchFilter.good_matches (matcher_match cv (obj_descriptors st) descs))
              [] []) as [[obj scene]|]; simpl; [|reflexivity].
  destruct (estimate img_ptr obj scene st) as [tr [color st'|e st'|c|]]; simpl;
    reflexivity.
Qed.

(** A frame that decodes and whose matches are well indexed is processed to
    the end: [find_object] returns the placeholder and leaves every field as
    it was. *)
Lemma find_object_returns msg mapMsg st img_ptr :
  toCvCopy cv msg = Some img_ptr ->
  well_indexed st img_ptr ->
  exists obj scene tr color,
    frame_correspondences st img_ptr = Some (obj, scene) /\
    estimate img_ptr obj scene st = (tr, Ret color st) /\
    find_object msg mapMsg st =
      (front_trace st msg img_ptr ++ tr ++ [E_imshow color; E_waitKey 1],
       Ret placeholder st).
Proof.
  intros Hdec Hidx.
  destruct (gather_in_range Hidx [] []) as (obj & scene & Hg).
  destruct (estimate_returns img_ptr obj scene st) as (tr & color & He).
  exists obj, scene, (E_findHomography obj scene :: tr), color.
  rewrite find_object_run, Hdec.
  unfold frame_correspondences. rewrite Hg, He. auto.
Qed.

(** However [find_object] ends, it is one of: the placeholder returned with
    the fields untouched, [exit(-1)], or an index out of range.  No
    exception leaves it. *)
Lemma find_object_outcomes msg mapMsg st tr r :
  find_object msg mapMsg st = (tr, r) ->
  r = Ret placeholder st \/ r = Exit (-1) \/ r = Undefined.
Proof.
  rewrite find_object_run.
  destruct (toCvCopy cv msg) as [img_ptr|].
  - destruct (frame_correspondences st img_ptr) as [[obj scene]|].
    + destruct (estimate_returns img_ptr obj scene st) as (tr' & color & ->).
      intros [= <- <-]. now left.
    + intros [= <- <-]. now right; right.
  - intros [= <- <-]. now right; left.
Qed.

(** [estimate] decodes nothing. *)
Lemma estimate_no_decode (color : Mat cv) (obj scene : list Point2f) st tr r m :
  estimate color obj scene st = (tr, r) -> ~ In (E_toCvCopy m) tr.
Proof.
  rewrite estimate_run.
  destruct (findHomography cv obj scene) as [H|];
    [destruct (perspectiveTransform cv H) as [f|]|];
    intros [= <- <-]; simpl; intuition discriminate.
Qed.

(** The only message [find_object] hands to the decoder is its argument. *)
Lemma find_object_decodes_only msg mapMsg st tr r m :
  find_object msg mapMsg st = (tr, r) ->
  In (E_toCvCopy m) tr -> m = msg.
Proof.
  rewrite find_object_run.
  assert (Hfront : forall img_ptr,
             In (E_toCvCopy m) (front_trace st msg img_ptr) -> m = msg).
  { intros img_ptr [H|[H|[H|[H|[H|[]]]]]]; try discriminate. now injection H. }
  destruct (toCvCopy cv msg) as [img_ptr|].
  - destruct (frame_correspondences st img_ptr) as [[obj scene]|].
    + destruct (estimate img_ptr obj scene st) as [tr' r'] eqn:He.
      pose proof (estimate_no_decode _ _ _ _ m He) as Hno.
      specialize (Hfront img_ptr).
      remember (front_trace st msg img_ptr) as ft.
      destruct r' as [color st'|e st'|c|]; intros [= <- <-];
        rewrite ?in_app_iff; simpl; intuition discriminate.
    + intros [= <- <-]. eauto.
  - intros [= <- <-] [H|[H|[]]]; try discriminate. now injection H.
Qed.

(** [detect], case by case. *)
Lemma detect_run st :
  detect st =
  match lastImageFrame st with
  | None => ([], Ret tt st)
  | Some msg =>
      match find_object msg (lastMapFrame st) st with
      | (tr, Ret _ st') => (tr, Ret tt (consumed st'))
      | (tr, Throw e st') => (tr, Throw e st')
      | (tr, Exit c) => (tr, Exit c)
      | (tr, Undefined) => (tr, Undefined)
      end
  end.
Proof.
  unfold detect. unfold bind at 1, get. simpl.
  destruct (lastImageFrame st) as [msg|]; [|reflexivity].
  unfold bind at 1.
  destruct (find_object msg (lastMapFrame st) st) as [tr [p st'|e st'|c|]];
    try reflexivity.
  unfold bind, modify, consumed; simpl. now rewrite app_nil_r.
Qed.

(** One turn of [main]'s loop in which nothing is delivered is [detect]
    followed by the remaining turns. *)
Lemma main_loop_quiet_turn (later : list (list (callback cv))) st :
  main_loop ([] :: later) st =
  match detect st with
  | (tr, Ret _ st') => let (tr', r) := main_loop later st' in (tr ++ tr', r)
  | (tr, Throw e st') => (tr, Throw e st')
  | (tr, Exit c) => (tr, Exit c)
  | (tr, Undefined) => (tr, Undefined)
  end.
Proof.
  simpl. unfold bind at 1, ret at 1. simpl. unfold bind at 1.
  destruct (detect st) as [tr [u st'|e st'|c|]]; try reflexivity.
  destruct (main_loop later st') as [tr' r]. reflexivity.
Qed.

(** ** The claims about [find_object] and [detect] *)

(** C1. For every image frame processed, the object location returned by
    [find_object] is the fixed point (0, 0, 0): whenever the call returns,
    that is the value, and a frame that decodes (with well-indexed matches)
    does make the call return, whatever [findHomography] and
    [perspectiveTransform] do on it, success or exception. *)
Theorem find_object_returns_placeholder msg mapMsg st :
  (forall tr p st',
      find_object msg mapMsg st = (tr, Ret p st') -> p = mkPoint32 0 0 0) /\
  (forall img_ptr,
      toCvCopy cv msg = Some img_ptr ->
      well_indexed st img_ptr ->
      exists tr, find_object msg mapMsg st = (tr, Ret (mkPoint32 0 0 0) st)).
Proof.
  split.
  - intros tr p st' Hrun.
    destruct (find_object_outcomes _ _ _ Hrun) as [H|[H|H]];
      inversion H; reflexivity.
  - intros img_ptr Hdec Hidx.
    destruct (@find_object_returns msg mapMsg st img_ptr Hdec Hidx)
      as (obj & scene & tr & color & _ & _ & Hrun).
    eexists. exact Hrun.
Qed.

(** C6. A frame that cannot be decoded as BGR8 is a hard failure: after the
    decoder and the error log, [find_object] ends the process with status
    -1.  No later stage sees the frame, [detect] does not come back, and
    the loop of [main] runs no further turn. *)
Theorem undecodable_frame_is_fatal msg mapMsg st :
  toCvCopy cv msg = None ->
  find_object msg mapMsg st = ([E_toCvCopy msg; E_ROS_ERROR], Exit (-1)) /\
  (lastImageFrame st = Some msg ->
   detect st = ([E_toCvCopy msg; E_ROS_ERROR], Exit (-1)) /\
   forall later,
     main_loop ([] :: later) st = ([E_toCvCopy msg; E_ROS_ERROR], Exit (-1))).
Proof.
  intros Hdec.
  assert (Hfo : forall mm, find_object msg mm st
                           = ([E_toCvCopy msg; E_ROS_ERROR], Exit (-1))).
  { intros mm. rewrite find_object_run, Hdec. reflexivity. }
  split; [apply Hfo|].
  intros Hslot.
  assert (Hdet : detect st = ([E_toCvCopy msg; E_ROS_ERROR], Exit (-1))).
  { rewrite detect_run, Hslot, Hfo. reflexivity. }
  split; [exact Hdet|].
  intros later. rewrite main_loop_quiet_turn, Hdet. reflexivity.
Qed.

(** C7. After every pipeline invocation the frame slot is empty, whether
    the homography was found or not; a tick on an empty slot does nothing
    and calls nothing.  [detect] never leaves by an exception, and a
    pending frame that decodes (with well-indexed matches) is consumed. *)
Theorem detect_consumes_frame st :
  (lastImageFrame st = None -> detect st = ([], Ret tt st)) /\
  (forall tr u st', detect st = (tr, Ret u st') -> lastImageFrame st' = None) /\
  (forall tr e st', detect st <> (tr, Throw e st')) /\
  (forall msg img_ptr,
      lastImageFrame st = Some msg ->
      toCvCopy cv msg = Some img_ptr ->
      well_indexed st img_ptr ->
      exists tr, detect st = (E_toCvCopy msg :: tr, Ret tt (consumed st))).
Proof.
  repeat split.
  - intros Hslot. rewrite detect_run, Hslot. reflexivity.
  - intros tr u st'. rewrite detect_run.
    destruct (lastImageFrame st) as [msg|] eqn:Hslot.
    + destruct (find_object msg (lastMapFrame st) st) as [tr' r] eqn:Hrun.
      destruct (find_object_outcomes _ _ _ Hrun) as [-> | [-> | ->]];
        intros [= <- <- <-]; reflexivity.
    + intros [= <- <- <-]. exact Hslot.
  - intros tr e st'. rewrite detect_run.
    destruct (lastImageFrame st) as [msg|]; [|discriminate].
    destruct (find_object msg (lastMapFrame st) st) as [tr' r] eqn:Hrun.
    destruct (find_object_outcomes _ _ _ Hrun) as [-> | [-> | ->]]; discriminate.
  - intros msg img_ptr Hslot Hdec Hidx.
    destruct (@find_object_returns msg (lastMapFrame st) st img_ptr Hdec Hidx)
      as (obj & scene & tr & color & _ & _ & Hrun).
    rewrite detect_run, Hslot, Hrun. simpl. eexists. reflexivity.
Qed.

(** C10. The map frame has no influence: [find_object] gives the same run
    for any two map messages, present or absent; with an image pending,
    [detect] gives the same run whatever the map slot holds, and it does
    invoke the pipeline on the pending image even when no map frame has
    arrived. *)
Theorem map_frame_is_ignored msg st :
  (forall map1 map2, find_object msg map1 st = find_object msg map2 st) /\
  (lastImageFrame st = Some msg ->
   (forall map1 map2,
       detect (set_lastMapFrame map1 st) = detect (set_lastMapFrame map2 st)) /\
   (forall map1, exists tr r,
       detect (set_lastMapFrame map1 st) = (E_toCvCopy msg :: tr, r))).
Proof.
  assert (Hfo : forall map1 map2 st0,
             find_object msg map1 st0 = find_object msg map2 st0).
  { intros. rewrite !find_object_run. reflexivity. }
  split; [intros; apply Hfo|].
  intros Hslot.
  assert (Hset : forall map0 map1,
             find_object msg map0 (set_lastMapFrame map1 st)
             = match find_object msg None st with
               | (tr, Ret p st') => (tr, Ret p (set_lastMapFrame map1 st'))
               | (tr, Throw e st') => (tr, Throw e (set_lastMapFrame map1 st'))
               | other => other
               end).
  { intros map0 map1. rewrite !find_object_run. simpl.
    destruct (toCvCopy cv msg) as [img_ptr|]; [|reflexivity].
    change (frame_correspondences (set_lastMapFrame map1 st) img_ptr)
      with (frame_correspondences st img_ptr).
    change (front_trace (set_lastMapFrame map1 st) msg img_ptr)
      with (front_trace st msg img_ptr).
    destruct (frame_correspondences st img_ptr) as [[obj scene]|]; [|reflexivity].
    rewrite !estimate_run. simpl.
    destruct (findHomography cv obj scene) as [H|]; [|reflexivity].
    destruct (perspectiveTransform cv H) as [f|]; reflexivity. }
  split.
  - intros map1 map2. rewrite !detect_run. simpl. rewrite Hslot, !Hset.
    destruct (find_object msg None st) as [tr r] eqn:Hrun.
    destruct (find_object_outcomes _ _ _ Hrun) as [-> | [-> | ->]]; reflexivity.
  - intros map1. rewrite detect_run. simpl. rewrite Hslot, Hset.
    rewrite find_object_run.
    destruct (toCvCopy cv msg) as [img_ptr|]; [|now eexists _, _].
    destruct (frame_correspondences st img_ptr) as [[obj scene]|];
      [|now eexists _, _].
    destruct (estimate img_ptr obj scene st) as [tr [color st'|e st'|c|]];
      now eexists _, _.
Qed.

(** ** The frame slot *)

Lemma overwrite_image_slot (f1 f2 : option (Msg cv)) st :
  set_lastImageFrame f2 (set_lastImageFrame f1 st) = set_lastImageFrame f2 st.
Proof. reflexivity. Qed.

(** Two arrivals in a row leave what the second alone leaves. *)
Lemma two_arrivals (A : Type) (f1 f2 : Msg cv) (k : Node cv A) st :
  (process_image_frame f1 ;; process_image_frame f2 ;; k) st
  = (process_image_frame f2 ;; k) st.
Proof.
  unfold bind, process_image_frame, modify. simpl.
  rewrite overwrite_image_slot.
  destruct (k (set_lastImageFrame (Some f2) st)) as [tr r]. reflexivity.
Qed.

(** C8. Of two frames that arrive before a tick the second overwrites the
    first: the slot holds the second, the tick (and the whole loop of
    [main]) runs exactly as if the first had never arrived, and the only
    frame handed to the decoder, hence to feature extraction, is the
    second. *)
Theorem latest_frame_wins (f1 f2 : Msg cv) st :
  (process_image_frame f1 ;; process_image_frame f2) st
    = ([], Ret tt (set_lastImageFrame (Some f2) st)) /\
  (process_image_frame f1 ;; process_image_frame f2 ;; detect) st
    = (process_image_frame f2 ;; detect) st /\
  (forall later,
      main_loop ([image_callback f1; image_callback f2] :: later) st
      = main_loop ([image_callback f2] :: later) st) /\
  (forall tr r m,
      (process_image_frame f1 ;; process_image_frame f2 ;; detect) st = (tr, r) ->
      In (E_toCvCopy m) tr -> m = f2).
Proof.
  split; [reflexivity|].
  split; [apply two_arrivals|].
  split.
  - intros later. simpl.
    unfold bind, process_image_frame, modify, ret. simpl.
    rewrite overwrite_image_slot. reflexivity.
  - intros tr r m. rewrite two_arrivals.
    unfold bind at 1, process_image_frame, modify. simpl.
    rewrite detect_run. simpl.
    destruct (find_object f2 (lastMapFrame st) (set_lastImageFrame (Some f2) st))
      as [tr' r'] eqn:Hrun.
    intros Heq Hin.
    apply (find_object_decodes_only _ _ _ m Hrun).
    destruct r'; injection Heq as <- _; exact Hin.
Qed.

(** ** The reference model *)

Lemma keeps_ret (A : Type) (a : A) : keeps_reference (cv:=cv) (ret a).
Proof. intros st tr r [= <- <-]. reflexivity. Qed.

Lemma keeps_emit (e : event cv) : keeps_reference (emit e).
Proof. intros st tr r [= <- <-]. reflexivity. Qed.

Lemma keeps_get : keeps_reference (cv:=cv) get.
Proof. intros st tr r [= <- <-]. reflexivity. Qed.

Lemma keeps_throw (A : Type) (e : exn) : keeps_reference (cv:=cv) (A:=A) (throw e).
Proof. intros st tr r [= <- <-]. reflexivity. Qed.

Lemma keeps_exit (A : Type) (c : Z) : keeps_reference (cv:=cv) (A:=A) (exit c).
Proof. intros st tr r [= <- <-]. exact I. Qed.

Lemma keeps_undefined (A : Type) : keeps_reference (cv:=cv) (A:=A) undefined.
Proof. intros st tr r [= <- <-]. exact I. Qed.

Lemma keeps_modify (f : ObjDetector cv -> ObjDetector cv) :
  (forall st, reference (f st) = reference st) -> keeps_reference (modify f).
Proof. intros Hf st tr r [= <- <-]. apply Hf. Qed.

Lemma keeps_bind (A B : Type) (m : Node cv A) (k : A -> Node cv B) :
  keeps_reference m -> (forall a, keeps_reference (k a)) ->
  keeps_reference (bind m k).
Proof.
  intros Hm Hk st tr r. unfold bind.
  destruct (m st) as [tr1 r1] eqn:E1. specialize (Hm _ _ _ E1).
  destruct r1 as [a st1|e st1|c|].
  - destruct (k a st1) as [tr2 r2] eqn:E2. specialize (Hk _ _ _ _ E2).
    intros [= <- <-]. destruct r2; try exact I; congruence.
  - intros [= <- <-]. exact Hm.
  - intros [= <- <-]. exact I.
  - intros [= <- <-]. exact I.
Qed.

Lemma keeps_try_catch (A : Type) (body handler : Node cv A) (e : exn) :
  keeps_reference body -> keeps_reference handler ->
  keeps_reference (try_catch body e handler).
Proof.
  intros Hb Hh st tr r. unfold try_catch.
  destruct (body st) as [tr1 r1] eqn:E1. specialize (Hb _ _ _ E1).
  destruct r1 as [a st1|e' st1|c|]; try (intros [= <- <-]; assumption).
  destruct (exn_eqb e e').
  - destruct (handler st1) as [tr2 r2] eqn:E2. specialize (Hh _ _ _ E2).
    intros [= <- <-]. destruct r2; try exact I; congruence.
  - intros [= <- <-]. exact Hb.
Qed.

Lemma keeps_image_slot (v : option (Msg cv)) :
  keeps_reference (modify (set_lastImageFrame v)).
Proof. apply keeps_modify. reflexivity. Qed.

Lemma keeps_map_slot (v : option (Msg cv)) :
  keeps_reference (modify (set_lastMapFrame v)).
Proof. apply keeps_modify. reflexivity. Qed.

Create HintDb keeps.

#[local] Hint Resolve keeps_ret keeps_emit keeps_get keeps_throw keeps_exit
  keeps_undefined keeps_bind keeps_try_catch keeps_image_slot keeps_map_slot
  : keeps.

(** Walks through a member function along its binds, branches and [try]s;
    a call into a library is opened to the event it logs. *)
Ltac keeps :=
  repeat first
    [ solve [auto with keeps]
    | apply keeps_bind; [|intros ?]
    | apply keeps_try_catch
    | match goal with
      | |- keeps_reference (match ?x with _ => _ end) => destruct x
      | |- keeps_reference (let _ := _ in _) => cbv zeta
      end
    | progress unfold call_toCvCopy, ROS_ERROR, call_cvtColor, call_detect,
        call_compute, call_match, call_findHomography,
        call_perspectiveTransform, call_line, call_imshow, call_waitKey ].

Lemma estimate_keeps (color : Mat cv) (obj scene : list Point2f) :
  keeps_reference (estimate color obj scene).
Proof. unfold estimate, try_body. keeps. Qed.

#[local] Hint Resolve estimate_keeps : keeps.

Lemma find_object_keeps msg mapMsg : keeps_reference (find_object msg mapMsg).
Proof. unfold find_object. keeps. Qed.

#[local] Hint Resolve find_object_keeps : keeps.

Lemma detect_keeps : keeps_reference (cv:=cv) detect.
Proof. unfold detect. keeps. Qed.

Lemma spinOnce_keeps (pending : list (callback cv)) :
  keeps_reference (spinOnce pending).
Proof.
  induction pending as [|c pending IH]; simpl; [apply keeps_ret|].
  apply keeps_bind; [|intros _; exact IH].
  destruct c; apply keeps_modify; reflexivity.
Qed.

Lemma main_loop_keeps (turns : list (list (callback cv))) :
  keeps_reference (main_loop turns).
Proof.
  induction turns as [|pending later IH]; simpl; [apply keeps_ret|].
  apply keeps_bind; [apply spinOnce_keeps|intros _].
  apply keeps_bind; [apply detect_keeps|intros _; exact IH].
Qed.

(** C9. The reference model is what the constructor computes from the
    calibration image, and no pipeline invocation changes it: every call of
    [find_object] and of [detect], and every run of [main]'s loop from the
    constructed object, leaves the calibration image, its keypoints and its
    descriptors as they were. *)
Theorem reference_model_is_immutable (calib_image_name : string) :
  reference (ObjDetector_new cv calib_image_name)
    = (imread cv calib_image_name,
       fst (extractor_compute cv (imread cv calib_image_name)
              (detector_detect cv (imread cv calib_image_name))),
       snd (extractor_compute cv (imread cv calib_image_name)
              (detector_detect cv (imread cv calib_image_name)))) /\
  (forall msg mapMsg st tr p st',
      find_object msg mapMsg st = (tr, Ret p st') -> reference st' = reference st) /\
  (forall st tr u st',
      detect st = (tr, Ret u st') -> reference st' = reference st) /\
  (forall turns tr u st',
      main_loop turns (ObjDetector_new cv calib_image_name) = (tr, Ret u st') ->
      reference st' = reference (ObjDetector_new cv calib_image_name)).
Proof.
  repeat split.
  - unfold ObjDetector_new, reference.
    destruct (extractor_compute cv (imread cv calib_image_name)
                (detector_detect cv (imread cv calib_image_name))); reflexivity.
  - intros msg mapMsg st tr p st' Hrun.
    exact (find_object_keeps msg mapMsg _ Hrun).
  - intros st tr u st' Hrun. exact (detect_keeps _ Hrun).
  - intros turns tr u st' Hrun. exact (main_loop_keeps turns _ Hrun).
Qed.

(** ** Geometry estimation *)

Lemma line_starts_app (tr1 tr2 : list (event cv)) :
  line_starts (tr1 ++ tr2) = line_starts tr1 ++ line_starts tr2.
Proof.
  induction tr1 as [|e tr1 IH]; [reflexivity|].
  destruct e; simpl; rewrite IH; reflexivity.
Qed.

(** The corners [estimate] draws from: the projected corners of the
    calibration image when solver and projection both succeed, none
    otherwise. *)
Lemma estimate_lines (color : Mat cv) (obj scene : list Point2f) st :
  line_starts (fst (estimate color obj scene st)) =
  match findHomography cv obj scene with
  | Some H =>
      match perspectiveTransform cv H with
      | Some f => map f (obj_corners st)
      | None => []
      end
  | None => []
  end.
Proof.
  rewrite estimate_run.
  destruct (findHomography cv obj scene) as [H|]; [|reflexivity].
  destruct (perspectiveTransform cv H) as [f|]; reflexivity.
Qed.

Lemma estimate_not_found (color : Mat cv) (obj scene : list Point2f) st :
  homography_raises cv obj scene = true <->
  localization (fst (estimate color obj scene st)) = NotFound.
Proof.
  unfold localization, homography_raises. rewrite estimate_lines.
  destruct (findHomography cv obj scene) as [H|]; [|tauto].
  destruct (perspectiveTransform cv H) as [f|]; [|tauto].
  simpl. split; discriminate.
Qed.

(** What a whole run of [find_object] shows is what its [estimate] shows. *)
Lemma find_object_lines msg mapMsg st img_ptr obj scene :
  toCvCopy cv msg = Some img_ptr ->
  frame_correspondences st img_ptr = Some (obj, scene) ->
  line_starts (fst (find_object msg mapMsg st))
  = line_starts (fst (estimate img_ptr obj scene st)).
Proof.
  intros Hdec Hcor. rewrite find_object_run, Hdec, Hcor.
  assert (Hft : line_starts (front_trace st msg img_ptr) = []) by reflexivity.
  set (ft := front_trace st msg img_ptr) in *. clearbody ft.
  destruct (estimate img_ptr obj scene st) as [tr [color st'|e st'|c|]];
    cbn [fst]; rewrite !line_starts_app, Hft; cbn [app line_starts];
    now rewrite ?app_nil_r.
Qed.

(** C4, as the code has it.  There is no guard on the number of
    correspondences: [estimate] calls the robust solver first thing on
    every input, fewer than four points included.  The call does not
    fault: it returns with the fields as they were.  The outcome is
    NotFound exactly when the solver or the projection raises, and then the
    picture is untouched; so with a solver that raises below four points,
    as OpenCV 2.4's does, fewer than four correspondences give NotFound. *)
Theorem estimate_calls_solver_unguarded
        (color : Mat cv) (obj scene : list Point2f) st :
  exists tr color',
    estimate color obj scene st
      = (E_findHomography obj scene :: tr, Ret color' st) /\
    (homography_raises cv obj scene = true <->
     localization (E_findHomography obj scene :: tr) = NotFound) /\
    (homography_raises cv obj scene = true -> color' = color) /\
    ((forall o s, (List.length o < 4)%nat -> findHomography cv o s = None) ->
     (List.length obj < 4)%nat ->
     localization (E_findHomography obj scene :: tr) = NotFound).
Proof.
  destruct (estimate_returns color obj scene st) as (tr & color' & Hrun).
  exists tr, color'. split; [exact Hrun|].
  pose proof (estimate_not_found color obj scene st) as Hnf.
  rewrite Hrun in Hnf. simpl fst in Hnf.
  split; [exact Hnf|]. split.
  - intros Hr. revert Hrun. rewrite estimate_run.
    unfold homography_raises in Hr.
    destruct (findHomography cv obj scene) as [H|];
      [destruct (perspectiveTransform cv H) as [f|]|];
      try discriminate; now intros [= _ <-].
  - intros Hlib Hlt. apply Hnf. unfold homography_raises.
    now rewrite (Hlib obj scene Hlt).
Qed.

(** C5, as the code has it.  The node never looks at the correspondences
    or at the matrix: estimation has failed, for the node, when the solver
    or the projection through its result raises [cv::Exception].  That
    exception is caught, and then, and only then, nothing is drawn
    (NotFound).  Whether it is raised or not, [find_object] returns
    normally and leaves every field as it was; [detect] then empties the
    slot, the reference model is intact, and the loop of [main] goes on
    with its next turns from that state. *)
Theorem estimation_failure_is_recoverable msg mapMsg st img_ptr obj scene :
  toCvCopy cv msg = Some img_ptr ->
  frame_correspondences st img_ptr = Some (obj, scene) ->
  exists tr,
    find_object msg mapMsg st = (tr, Ret placeholder st) /\
    (homography_raises cv obj scene = true <-> localization tr = NotFound) /\
    (lastImageFrame st = Some msg ->
     detect st = (tr, Ret tt (consumed st)) /\
     reference (consumed st) = reference st /\
     forall later,
       main_loop ([] :: later) st
       = (tr ++ fst (main_loop later (consumed st)),
          snd (main_loop later (consumed st)))).
Proof.
  intros Hdec Hcor.
  assert (Hrun : forall mm, exists color,
             find_object msg mm st
             = (front_trace st msg img_ptr
                  ++ fst (estimate img_ptr obj scene st)
                  ++ [E_imshow color; E_waitKey 1],
                Ret placeholder st)).
  { intros mm. rewrite find_object_run, Hdec, Hcor.
    destruct (estimate_returns img_ptr obj scene st) as (tr & color & ->).
    now exists color. }
  destruct (Hrun mapMsg) as (color & Hfo).
  eexists. split; [exact Hfo|]. split.
  - pose proof (estimate_not_found img_ptr obj scene st) as Hnf.
    pose proof (@find_object_lines msg mapMsg st img_ptr obj scene Hdec Hcor) as Hl.
    rewrite Hfo in Hl. cbn [fst] in Hl.
    unfold localization in *. rewrite Hl. exact Hnf.
  - intros Hslot.
    assert (Hdet : detect st
                   = (front_trace st msg img_ptr
                        ++ fst (estimate img_ptr obj scene st)
                        ++ [E_imshow color; E_waitKey 1],
                      Ret tt (consumed st))).
    { rewrite detect_run, Hslot.
      destruct (Hrun (lastMapFrame st)) as (color2 & Hfo2).
      assert (find_object msg (lastMapFrame st) st = find_object msg mapMsg st)
        as -> by (rewrite !find_object_run; reflexivity).
      rewrite Hfo. reflexivity. }
    split; [exact Hdet|]. split; [reflexivity|].
    intros later. rewrite main_loop_quiet_turn, Hdet.
    destruct (main_loop later (consumed st)) as [tr' r]. reflexivity.
Qed.

End Runs.

(** ** The match filter on concrete distances *)

(** C2. The code does not take the minimum over the matches alone: the
    running minimum starts at 100 (line 91), so when every distance is
    above 100 the threshold is 300, not three times the smallest distance.
    On two matches of distances 120 and 330 the code keeps the first only,
    where the filter as specified (minimum 120, threshold 360) keeps both;
    on no matches at all the code's minimum is 100, not 0. *)
Theorem min_dist_starts_at_100 :
  MatchFilter.min_dist Fixture.distant_matches = 100%float /\
  MatchFilter.threshold Fixture.distant_matches = 300%float /\
  MatchFilter.good_matches Fixture.distant_matches = [Fixture.near_match] /\
  MatchFilter.spec_min_dist Fixture.distant_matches = 120%float /\
  MatchFilter.spec_threshold Fixture.distant_matches = 360%float /\
  MatchFilter.spec_filter Fixture.distant_matches
    = [Fixture.near_match; Fixture.far_match] /\
  MatchFilter.min_dist [] = 100%float /\
  MatchFilter.spec_min_dist [] = 0%float.
Proof. repeat split; vm_compute; reflexivity. Qed.

(** C3. On matches with distances 1, 2, 3, 10, 50 the filter finds
    [min_dist] = 1 and the threshold 3, and keeps exactly the matches of
    distance below 3: the first two, of distances 1 and 2. *)
Theorem filter_example (ms : list DMatch) :
  map distance ms = [1; 2; 3; 10; 50]%float ->
  MatchFilter.min_dist ms = 1%float /\
  MatchFilter.threshold ms = 3%float /\
  MatchFilter.good_matches ms
    = filter (fun m => PrimFloat.ltb (distance m) 3%float) ms /\
  MatchFilter.good_matches ms = firstn 2 ms /\
  map distance (MatchFilter.good_matches ms) = [1; 2]%float.
Proof.
  intros Hd.
  destruct ms as [|[q1 t1 i1 d1] [|[q2 t2 i2 d2] [|[q3 t3 i3 d3]
    [|[q4 t4 i4 d4] [|[q5 t5 i5 d5] [|m6 ms]]]]]]; try discriminate Hd.
  simpl in Hd. injection Hd as -> -> -> -> ->.
  repeat split; reflexivity.
Qed.

(** ** The theorems on concrete frames *)

Ltac in_range :=
  unfold well_indexed, indices_in_range; vm_compute;
  repeat first [ apply Forall_nil | apply Forall_cons | split
               | reflexivity | (intro; discriminate) ].

(** Frame 1 of the stand-in shows the object: the outline is drawn and the
    location returned is still (0, 0, 0). *)
Lemma find_object_returns_placeholder_witness :
  exists tr,
    find_object (cv:=Fixture.cv) 1%Z None Fixture.start
    = (tr, Ret (mkPoint32 0 0 0) Fixture.start).
Proof.
  apply (proj2 (@find_object_returns_placeholder Fixture.cv 1%Z None Fixture.start)
               1%Z).
  - reflexivity.
  - in_range.
Defined.

Lemma filter_example_witness :
  MatchFilter.min_dist Fixture.five_matches = 1%float /\
  MatchFilter.threshold Fixture.five_matches = 3%float /\
  MatchFilter.good_matches Fixture.five_matches
    = filter (fun m => PrimFloat.ltb (distance m) 3%float) Fixture.five_matches /\
  MatchFilter.good_matches Fixture.five_matches = firstn 2 Fixture.five_matches /\
  map distance (MatchFilter.good_matches Fixture.five_matches) = [1; 2]%float.
Proof. exact (filter_example Fixture.five_matches eq_refl). Defined.

(** The blank frame 0 yields no correspondence at all, and the solver is
    called on the two empty point vectors all the same. *)
Lemma solver_called_on_no_correspondences :
  frame_correspondences Fixture.start 0%Z = Some ([], []) /\
  (List.length (@nil Point2f) < 4)%nat /\
  In (E_findHomography [] [])
     (fst (estimate (cv:=Fixture.cv) 0%Z [] [] Fixture.start)) /\
  In (E_findHomography [] [])
     (fst (find_object (cv:=Fixture.cv) 0%Z None Fixture.start)).
Proof.
  split; [reflexivity|]. split; [repeat constructor|].
  split; vm_compute; tauto.
Qed.

Lemma estimate_calls_solver_unguarded_witness :
  exists tr color',
    estimate (cv:=Fixture.cv) 0%Z [] [] Fixture.start
      = (E_findHomography [] [] :: tr, Ret color' Fixture.start) /\
    localization (E_findHomography (cv:=Fixture.cv) [] [] :: tr) = NotFound.
Proof.
  destruct (@estimate_calls_solver_unguarded Fixture.cv 0%Z [] [] Fixture.start)
    as (tr & color' & Hrun & _ & _ & Hlib).
  exists tr, color'. split; [exact Hrun|].
  apply Hlib.
  - intros o s Hlt. simpl.
    apply Nat.ltb_lt in Hlt. rewrite Hlt. reflexivity.
  - repeat constructor.
Defined.

(** Frame 2 of the stand-in has its four keypoints on one line.  With the
    solver that raises on it, nothing is drawn and the node carries on. *)
Lemma estimation_failure_is_recoverable_witness :
  exists tr,
    find_object (cv:=Fixture.cv) 2%Z None Fixture.start
      = (tr, Ret placeholder Fixture.start) /\
    localization tr = NotFound.
Proof.
  destruct (@estimation_failure_is_recoverable Fixture.cv 2%Z None Fixture.start
              2%Z
              [mkPoint2f 0 0; mkPoint2f 8 0; mkPoint2f 8 6; mkPoint2f 0 6]
              Fixture.collinear_scene eq_refl eq_refl)
    as (tr & Hrun & Hloc & _).
  exists tr. split; [exact Hrun|]. apply Hloc. reflexivity.
Defined.

(** The same collinear frame with the solver that returns a matrix on it:
    the correspondences are degenerate, yet the node draws an outline (all
    four corners at the origin) and reports no failure. *)
Lemma collinear_frame_is_drawn_as_found :
  frame_correspondences Fixture.lenient_start 2%Z
    = Some ([mkPoint2f 0 0; mkPoint2f 8 0; mkPoint2f 8 6; mkPoint2f 0 6],
            Fixture.collinear_scene) /\
  Fixture.collinear Fixture.collinear_scene = true /\
  snd (find_object (cv:=Fixture.lenient_cv) 2%Z None Fixture.lenient_start)
    = Ret placeholder Fixture.lenient_start /\
  localization
    (fst (find_object (cv:=Fixture.lenient_cv) 2%Z None Fixture.lenient_start))
    = Found [mkPoint2f 0 0; mkPoint2f 0 0; mkPoint2f 0 0; mkPoint2f 0 0].
Proof. repeat split; vm_compute; reflexivity. Qed.

Lemma undecodable_frame_is_fatal_witness :
  find_object (cv:=Fixture.cv) (-1)%Z None Fixture.start
  = ([E_toCvCopy (cv:=Fixture.cv) (-1)%Z; E_ROS_ERROR], Exit (-1)).
Proof.
  exact (proj1 (@undecodable_frame_is_fatal Fixture.cv (-1)%Z None Fixture.start
                  eq_refl)).
Defined.

Lemma detect_consumes_frame_witness :
  exists tr,
    detect (Fixture.pending 1)
    = (E_toCvCopy (cv:=Fixture.cv) 1%Z :: tr, Ret tt Fixture.start).
Proof.
  apply (proj2 (proj2 (proj2
           (@detect_consumes_frame Fixture.cv (Fixture.pending 1)))) 1%Z 1%Z).
  - reflexivity.
  - reflexivity.
  - in_range.
Defined.

(** After the five turns of the stand-in session, which end on a map
    message, the reference model is the constructor's. *)
Lemma reference_model_is_immutable_witness :
  reference (set_lastMapFrame (cv:=Fixture.cv) (Some 5%Z) Fixture.start)
  = reference Fixture.start.
Proof.
  apply (proj2 (proj2 (proj2
           (@reference_model_is_immutable Fixture.cv "object.png")))
           Fixture.session (fst (main_loop Fixture.session Fixture.start)) tt).
  vm_compute. reflexivity.
Defined.

Lemma map_frame_is_ignored_witness :
  detect (Fixture.pending_with_map 1 (Some 5%Z))
  = detect (Fixture.pending_with_map 1 None).
Proof.
  exact (proj1 (proj2 (@map_frame_is_ignored Fixture.cv 1%Z (Fixture.pending 1))
                      eq_refl)
               (Some 5%Z) None).
Defined.

Lemma latest_frame_wins_witness :
  (process_image_frame (cv:=Fixture.cv) 0%Z ;;
   process_image_frame (cv:=Fixture.cv) 1%Z ;; detect)%node Fixture.start
  = (process_image_frame (cv:=Fixture.cv) 1%Z ;; detect)%node Fixture.start.
Proof.
  exact (proj1 (proj2 (@latest_frame_wins Fixture.cv 0%Z 1%Z Fixture.start))).
Defined.

(** * Further properties of the node *)

(** ** Integers as [float] *)

(** An image dimension below 2^24 is held exactly. *)
Lemma round_to_binary32_exact (m : Z) :
  (0 <= m < 2 ^ 24)%Z -> round_to_binary32 m = m.
Proof.
  intros [Hlo Hhi]. unfold round_to_binary32.
  assert (Hlog : (Z.log2 m < 24)%Z).
  { destruct (Z.eq_dec m 0) as [->|Hne]; [reflexivity|].
    apply Z.log2_lt_pow2; lia. }
  destruct (Z.leb_spec (Z.log2 m - 23) 0); [reflexivity|lia].
Qed.

(** Above 2^24 the conversion rounds to the nearest binary32 number, ties
    to even. *)
Lemma float_of_int_rounds :
  float_of_int 16777217 = 16777216%float /\
  float_of_int 16777219 = 16777220%float /\
  float_of_int (-16777217) = (-16777216)%float /\
  float_of_int 33554435 = 33554436%float /\
  float_of_int 640 = 640%float.
Proof. repeat split; vm_compute; reflexivity. Qed.

(** ** The two loops of the filter *)

Module MatchFilterMore.
Import MatchFilter.

Lemma filter_none (thr : float) (ms : list DMatch) :
  Forall (fun m => PrimFloat.ltb (distance m) thr = false) ms ->
  filter (fun m => PrimFloat.ltb (distance m) thr) ms = [].
Proof.
  induction 1 as [|m ms Hm _ IH]; simpl; [reflexivity|].
  now rewrite Hm.
Qed.

(** Once the running minimum is 0 it stays 0, as long as no distance is
    negative. *)
Lemma scan_stays_zero (ms : list DMatch) :
  Forall (fun m => zero_or_positive (distance m)) ms ->
  forall mx, snd (fold_left scan_step ms (mx, 0%float)) = 0%float.
Proof.
  induction 1 as [|m ms [Hm _] _ IH]; intros mx; simpl; [reflexivity|].
  rewrite Hm. apply IH.
Qed.

Lemma scan_reaches_zero (ms : list DMatch) :
  Forall (fun m => zero_or_positive (distance m)) ms ->
  Exists (fun m => distance m = 0%float) ms ->
  forall mx mn,
    mn = 0%float \/ PrimFloat.ltb 0%float mn = true ->
    snd (fold_left scan_step ms (mx, mn)) = 0%float.
Proof.
  induction 1 as [|m ms Hm Hms IH]; intros Hex mx mn Hmn.
  - inversion Hex.
  - simpl. inversion Hex as [m' ms' Hz|m' ms' Hz]; subst.
    + rewrite Hz.
      destruct Hmn as [-> | Hpos].
      * change (PrimFloat.ltb 0 0) with false. cbv iota.
        now apply scan_stays_zero.
      * rewrite Hpos. now apply scan_stays_zero.
    + apply IH; [exact Hz|].
      destruct (PrimFloat.ltb (distance m) mn); [|exact Hmn].
      destruct Hm as [_ Hm]. exact Hm.
Qed.

End MatchFilterMore.

(** X1. The second loop is a selection: the good matches are the matches,
    in their order, whose distance is below the threshold the first loop
    found; a match is kept exactly when it passes that test, and no match
    is invented or duplicated. *)
Theorem good_matches_selects (ms : list DMatch) :
  MatchFilter.good_matches ms
    = filter (fun m => PrimFloat.ltb (distance m) (MatchFilter.threshold ms)) ms /\
  (forall m, In m (MatchFilter.good_matches ms) <->
             In m ms /\ PrimFloat.ltb (distance m) (MatchFilter.threshold ms) = true) /\
  (List.length (MatchFilter.good_matches ms) <= List.length ms)%nat.
Proof.
  rewrite MatchFilterFacts.good_matches_filter.
  split; [reflexivity|]. split.
  - intros m. apply filter_In.
  - apply filter_length_le.
Qed.

(** X2. When no match is closer than 100 the running minimum never moves
    from its start: the threshold is 300 whatever the distances, and a
    match is kept exactly when its distance is below 300. *)
Theorem threshold_is_300_beyond_100 (ms : list DMatch) :
  Forall (fun m => PrimFloat.ltb (distance m) 100%float = false) ms ->
  MatchFilter.min_dist ms = 100%float /\
  MatchFilter.threshold ms = 300%float /\
  MatchFilter.good_matches ms
    = filter (fun m => PrimFloat.ltb (distance m) 300%float) ms.
Proof.
  intros Hms.
  destruct (MatchFilterFacts.threshold_capped Hms) as [Hmin Hthr].
  repeat split; [exact Hmin|exact Hthr|].
  rewrite MatchFilterFacts.good_matches_filter, Hthr. reflexivity.
Qed.

(** X3. An exact match empties the filter.  When no distance is negative
    and some match has distance 0, the minimum is 0, the threshold is 0,
    and no match is kept, the exact one included: nothing is strictly
    below 0. *)
Theorem exact_match_empties_filter (ms : list DMatch) :
  Forall (fun m => zero_or_positive (distance m)) ms ->
  Exists (fun m => distance m = 0%float) ms ->
  MatchFilter.min_dist ms = 0%float /\
  MatchFilter.threshold ms = 0%float /\
  MatchFilter.good_matches ms = [].
Proof.
  intros Hms Hex.
  assert (Hmin : MatchFilter.min_dist ms = 0%float).
  { unfold MatchFilter.min_dist, MatchFilter.scan.
    apply MatchFilterMore.scan_reaches_zero; auto. }
  assert (Hthr : MatchFilter.threshold ms = 0%float).
  { unfold MatchFilter.threshold. rewrite Hmin. reflexivity. }
  repeat split; [exact Hmin|exact Hthr|].
  rewrite MatchFilterFacts.good_matches_filter, Hthr.
  apply MatchFilterMore.filter_none.
  eapply Forall_impl; [|exact Hms]. intros m [Hm _]. exact Hm.
Qed.

(** ** The lookup loop *)

Lemma vec_at_some (A : Type) (v : list A) (i : Z) (a : A) :
  vec_at v i = Some a -> (0 <= i < Z.of_nat (List.length v))%Z.
Proof.
  unfold vec_at. destruct (Z.ltb_spec i 0) as [|Hlo]; [discriminate|].
  intros H. assert (Hlt : (Z.to_nat i < List.length v)%nat).
  { apply nth_error_Some. congruence. }
  lia.
Qed.

Lemma gather_some_in_range (okps ikps : list KeyPoint) (good : list DMatch) :
  forall obj scene,
    gather okps ikps good obj scene <> None -> indices_in_range okps ikps good.
Proof.
  unfold indices_in_range.
  induction good as [|m good IH]; intros obj scene; simpl; [constructor|].
  destruct (vec_at okps (queryIdx m)) as [ko|] eqn:Eo; [|congruence].
  destruct (vec_at ikps (trainIdx m)) as [ki|] eqn:Ei; [|congruence].
  intros H. constructor; [|eapply IH; exact H].
  split; eapply vec_at_some; eassumption.
Qed.

Lemma gather_pointwise (okps ikps : list KeyPoint) (good : list DMatch) :
  forall obj scene obj' scene',
    gather okps ikps good obj scene = Some (obj', scene') ->
    exists o s,
      obj' = obj ++ o /\ scene' = scene ++ s /\
      Forall2 (fun m p => exists k, vec_at okps (queryIdx m) = Some k /\ p = pt k)
              good o /\
      Forall2 (fun m p => exists k, vec_at ikps (trainIdx m) = Some k /\ p = pt k)
              good s.
Proof.
  induction good as [|m good IH]; intros obj scene obj' scene'; simpl.
  - intros [= <- <-]. exists [], []. rewrite !app_nil_r. repeat split; constructor.
  - destruct (vec_at okps (queryIdx m)) as [ko|] eqn:Eo; [|discriminate].
    destruct (vec_at ikps (trainIdx m)) as [ki|] eqn:Ei; [|discriminate].
    intros H. destruct (IH _ _ _ _ H) as (o & s & -> & -> & Ho & Hs).
    exists (pt ko :: o), (pt ki :: s). rewrite <- !app_assoc. simpl.
    repeat split; constructor; eauto.
Qed.

(** X4. The loop of lines 115-120 is defined exactly when every index of
    every good match is a position of its keypoint vector.  It then yields
    one point pair per good match, in order: the point of the calibration
    keypoint at [queryIdx] and the point of the frame keypoint at
    [trainIdx]; so the two vectors handed to the solver have the same
    length, the number of good matches. *)
Theorem gather_pairs_by_index (okps ikps : list KeyPoint) (good : list DMatch) :
  (indices_in_range okps ikps good <-> gather okps ikps good [] [] <> None) /\
  (forall obj scene,
      gather okps ikps good [] [] = Some (obj, scene) ->
      Forall2 (fun m p => exists k, vec_at okps (queryIdx m) = Some k /\ p = pt k)
              good obj /\
      Forall2 (fun m p => exists k, vec_at ikps (trainIdx m) = Some k /\ p = pt k)
              good scene /\
      List.length obj = List.length good /\
      List.length scene = List.length good).
Proof.
  split.
  - split.
    + intros Hin. destruct (gather_in_range Hin [] []) as (o & s & ->). discriminate.
    + apply gather_some_in_range.
  - intros obj scene H.
    destruct (gather_pointwise _ _ _ _ _ H) as (o & s & -> & -> & Ho & Hs).
    simpl. repeat split; try assumption.
    + symmetry. eapply Forall2_length; eassumption.
    + symmetry. eapply Forall2_length; eassumption.
Qed.

(** ** Deliveries, ticks and the loop *)

Section MoreRuns.
Context {cv : Collaborators}.
Implicit Types (st : ObjDetector cv) (msg : Msg cv) (mapMsg : option (Msg cv)).

Local Open Scope node_scope.

Lemma bind_run (A B : Type) (m : Node cv A) (k : A -> Node cv B) st :
  bind m k st =
  match m st with
  | (tr, Ret a st') => (tr ++ fst (k a st'), snd (k a st'))
  | (tr, Throw e st') => (tr, Throw e st')
  | (tr, Exit c) => (tr, Exit c)
  | (tr, Undefined) => (tr, Undefined)
  end.
Proof.
  unfold bind. destruct (m st) as [tr [a st'|e st'|c|]]; try reflexivity.
  destruct (k a st'); reflexivity.
Qed.

Lemma after_image_delivery (msg : Msg cv) (later : list (callback cv)) st :
  after_deliveries later (set_lastImageFrame (Some msg) st)
  = after_deliveries (image_callback msg :: later) st.
Proof.
  unfold after_deliveries. simpl.
  destruct (last_image later), (last_map later); reflexivity.
Qed.

Lemma after_map_delivery (msg : Msg cv) (later : list (callback cv)) st :
  after_deliveries later (set_lastMapFrame (Some msg) st)
  = after_deliveries (map_callback msg :: later) st.
Proof.
  unfold after_deliveries. simpl.
  destruct (last_image later), (last_map later); reflexivity.
Qed.

(** [ros::spinOnce] only fills the slots. *)
Lemma spinOnce_run (pending : list (callback cv)) st :
  spinOnce pending st = ([], Ret tt (after_deliveries pending st)).
Proof.
  revert st. induction pending as [|c later IH]; intros st; [reflexivity|].
  simpl. rewrite bind_run.
  destruct c as [msg|msg]; simpl; rewrite IH; simpl.
  - now rewrite after_image_delivery.
  - now rewrite after_map_delivery.
Qed.

Lemma last_image_snoc (pending : list (callback cv)) (msg : Msg cv) :
  last_image (pending ++ [image_callback msg]) = Some msg.
Proof.
  induction pending as [|c later IH]; [reflexivity|].
  destruct c; simpl; rewrite IH; reflexivity.
Qed.

(** X8. Whatever [ros::spinOnce] delivers, in whatever number and order, it
    calls nothing and only fills the two slots: the image slot ends up
    with the last image message delivered (it keeps its content when none
    was), the map slot likewise, and the reference model is as it was.  In
    particular the frame delivered last always wins. *)
Theorem spinOnce_delivers_latest (pending : list (callback cv)) st :
  spinOnce pending st = ([], Ret tt (after_deliveries pending st)) /\
  lastImageFrame (after_deliveries pending st)
    = match last_image pending with
      | Some msg => Some msg
      | None => lastImageFrame st
      end /\
  lastMapFrame (after_deliveries pending st)
    = match last_map pending with
      | Some msg => Some msg
      | None => lastMapFrame st
      end /\
  reference (after_deliveries pending st) = reference st /\
  (forall msg, last_image (pending ++ [image_callback msg]) = Some msg).
Proof.
  split; [apply spinOnce_run|].
  unfold after_deliveries.
  repeat split; try apply last_image_snoc;
    destruct (last_image pending), (last_map pending); reflexivity.
Qed.

(** X9. The map slot is written and never read.  With no image pending a
    tick leaves a delivered map message where it is; a tick that processes
    an image and returns empties the map slot too; and no message reaches
    the decoder other than the pending image, so a map message is dropped
    unseen. *)
Theorem map_slot_lifecycle st :
  (lastImageFrame st = None ->
   forall m, (process_map_frame m ;; detect) st
             = ([], Ret tt (set_lastMapFrame (Some m) st))) /\
  (forall tr u st',
      detect st = (tr, Ret u st') -> lastImageFrame st <> None ->
      lastMapFrame st' = None) /\
  (forall tr r m,
      detect st = (tr, r) -> In (E_toCvCopy m) tr -> lastImageFrame st = Some m).
Proof.
  repeat split.
  - intros Hslot m. rewrite bind_run. unfold process_map_frame, modify.
    rewrite detect_run. simpl. rewrite Hslot. reflexivity.
  - intros tr u st'. rewrite detect_run.
    destruct (lastImageFrame st) as [msg|]; [|congruence].
    destruct (find_object msg (lastMapFrame st) st) as [tr' r] eqn:Hrun.
    destruct (find_object_outcomes _ _ _ Hrun) as [-> | [-> | ->]];
      intros [= <- <- <-] _; reflexivity.
  - intros tr r m. rewrite detect_run.
    destruct (lastImageFrame st) as [msg|].
    + destruct (find_object msg (lastMapFrame st) st) as [tr' r'] eqn:Hrun.
      intros Heq Hin. f_equal. symmetry.
      apply (find_object_decodes_only _ _ _ m Hrun).
      destruct r'; injection Heq as <- _; exact Hin.
    + intros [= <- <-] [].
Qed.

Lemma decode_count_app (tr1 tr2 : list (event cv)) :
  decode_count (tr1 ++ tr2) = (decode_count tr1 + decode_count tr2)%nat.
Proof.
  induction tr1 as [|e tr1 IH]; [reflexivity|].
  destruct e; simpl; rewrite IH; reflexivity.
Qed.

Lemma find_object_counts msg mapMsg st :
  decode_count (fst (find_object msg mapMsg st)) = 1%nat /\
  (solver_count (fst (find_object msg mapMsg st)) <= 1)%nat.
Proof.
  rewrite find_object_run.
  destruct (toCvCopy cv msg) as [img_ptr|]; [|split; [reflexivity|simpl; lia]].
  destruct (frame_correspondences st img_ptr) as [[obj scene]|];
    [|split; [reflexivity|simpl; lia]].
  rewrite estimate_run.
  destruct (findHomography cv obj scene) as [H|];
    [destruct (perspectiveTransform cv H) as [f|]|];
    split; simpl; lia.
Qed.

Lemma detect_counts st :
  decode_count (fst (detect st))
  = match lastImageFrame st with Some _ => 1%nat | None => 0%nat end.
Proof.
  rewrite detect_run.
  destruct (lastImageFrame st) as [msg|]; [|reflexivity].
  pose proof (proj1 (find_object_counts msg (lastMapFrame st) st)) as Hc.
  destruct (find_object msg (lastMapFrame st) st) as [tr [p st'|e st'|c|]];
    exact Hc.
Qed.

(** X7. One frame per tick at most.  Every call of [find_object] hands
    exactly one message to the decoder and calls the solver at most once;
    a tick decodes one frame when one is pending and none otherwise; so a
    run of [main]'s loop never decodes more frames than it makes turns,
    however many messages were delivered. *)
Theorem one_frame_per_tick :
  (forall msg mapMsg st,
      decode_count (fst (find_object msg mapMsg st)) = 1%nat /\
      (solver_count (fst (find_object msg mapMsg st)) <= 1)%nat) /\
  (forall st,
      decode_count (fst (detect st))
      = match lastImageFrame st with Some _ => 1%nat | None => 0%nat end) /\
  (forall (turns : list (list (callback cv))) st,
      (decode_count (fst (main_loop turns st)) <= List.length turns)%nat).
Proof.
  split; [apply find_object_counts|]. split; [apply detect_counts|].
  induction turns as [|pending later IH]; intros st; [simpl; lia|].
  simpl. rewrite bind_run, spinOnce_run. simpl. rewrite bind_run.
  pose proof (detect_counts (after_deliveries pending st)) as Hd.
  destruct (detect (after_deliveries pending st)) as [tr [u st'|e st'|c|]];
    simpl in *.
  - rewrite decode_count_app. specialize (IH st').
    destruct (lastImageFrame (after_deliveries pending st)); lia.
  - destruct (lastImageFrame (after_deliveries pending st)); lia.
  - destruct (lastImageFrame (after_deliveries pending st)); lia.
  - destruct (lastImageFrame (after_deliveries pending st)); lia.
Qed.

(** X11. Turns without an image are idle.  From an empty image slot, a run
    of [main]'s loop in which no turn delivers an image (map messages may
    arrive) calls nothing at all and comes back with the image slot still
    empty and the reference model as it was. *)
Theorem quiet_turns_call_nothing (turns : list (list (callback cv))) st :
  lastImageFrame st = None ->
  Forall (fun pending => last_image pending = None) turns ->
  exists st',
    main_loop turns st = ([], Ret tt st') /\
    lastImageFrame st' = None /\
    reference st' = reference st.
Proof.
  intros Hslot Hq. revert st Hslot.
  induction Hq as [|pending later Hp _ IH]; intros st Hslot.
  - exists st. repeat split. exact Hslot.
  - assert (Hs : lastImageFrame (after_deliveries pending st) = None).
    { unfold after_deliveries. rewrite Hp.
      destruct (last_map pending); exact Hslot. }
    destruct (IH _ Hs) as (st' & Hrun & Hslot' & Href).
    exists st'. simpl. rewrite bind_run, spinOnce_run. simpl.
    rewrite bind_run, detect_run, Hs. simpl. rewrite Hrun. simpl.
    repeat split; [exact Hslot'|].
    rewrite Href. unfold after_deliveries. rewrite Hp.
    destruct (last_map pending); reflexivity.
Qed.

End MoreRuns.

(** ** How a frame ends *)

Section Endings.
Context {cv : Collaborators}.
Implicit Types (st : ObjDetector cv) (msg : Msg cv) (mapMsg : option (Msg cv)).

Local Open Scope node_scope.

Lemma well_indexed_iff st (img_ptr : Mat cv) :
  well_indexed st img_ptr <-> frame_correspondences st img_ptr <> None.
Proof.
  unfold well_indexed, frame_correspondences. split.
  - intros Hin. destruct (gather_in_range Hin [] []) as (o & s & ->). discriminate.
  - apply gather_some_in_range.
Qed.

(** X6. How [find_object] ends, and what each ending tells.  It ends the
    process exactly when the frame does not decode, and then with status
    -1.  When it returns, the frame decoded, the indices of its good
    matches were in range, the value is the placeholder and no field has
    changed.  An out-of-range read happens only on a decoded frame whose
    good matches are not all in range.  And no exception raised inside the
    [try] of lines 122-141, by the solver or by the projection, leaves
    [estimate].  (The calls outside any [try] are taken to return.) *)
Theorem find_object_ending msg mapMsg st :
  (snd (find_object msg mapMsg st) = Exit (-1) <-> toCvCopy cv msg = None) /\
  (forall c, snd (find_object msg mapMsg st) = Exit c -> c = (-1)%Z) /\
  (forall p st',
      snd (find_object msg mapMsg st) = Ret p st' ->
      p = placeholder /\ st' = st /\
      exists img_ptr, toCvCopy cv msg = Some img_ptr /\ well_indexed st img_ptr) /\
  (snd (find_object msg mapMsg st) = Undefined ->
   exists img_ptr,
     toCvCopy cv msg = Some img_ptr /\ ~ well_indexed st img_ptr) /\
  (forall (color : Mat cv) obj scene st0 e st',
      snd (estimate color obj scene st0) <> Throw e st').
Proof.
  assert (Hest : forall (color : Mat cv) obj scene st0 e st',
             snd (estimate color obj scene st0) <> Throw e st').
  { intros color obj scene st0 e st'.
    destruct (estimate_returns color obj scene st0) as (tr & color' & ->).
    discriminate. }
  rewrite find_object_run.
  destruct (toCvCopy cv msg) as [img_ptr|].
  - pose proof (well_indexed_iff st img_ptr) as Hidx.
    destruct (frame_correspondences st img_ptr) as [[obj scene]|] eqn:Hcor.
    + destruct (estimate_returns img_ptr obj scene st) as (tr & color & ->).
      cbn [snd].
      repeat split; intros; try discriminate; try congruence;
        try (eapply Hest; eassumption).
      exists img_ptr. split; [reflexivity|]. apply Hidx. discriminate.
    + cbn [snd].
      repeat split; intros; try discriminate; try congruence;
        try (eapply Hest; eassumption).
      exists img_ptr. split; [reflexivity|].
      intros Hw. apply Hidx in Hw. congruence.
  - cbn [snd].
    repeat split; intros; try discriminate; try congruence;
      try (eapply Hest; eassumption).
Qed.

Lemma segments_app (tr1 tr2 : list (event cv)) :
  segments (tr1 ++ tr2) = segments tr1 ++ segments tr2.
Proof.
  induction tr1 as [|e tr1 IH]; [reflexivity|].
  destruct e; simpl; rewrite IH; reflexivity.
Qed.

Lemma shown_app (tr1 tr2 : list (event cv)) :
  shown (tr1 ++ tr2) = shown tr1 ++ shown tr2.
Proof.
  induction tr1 as [|e tr1 IH]; [reflexivity|].
  destruct e; simpl; rewrite IH; reflexivity.
Qed.

(** A decoded frame with correspondences [obj], [scene]: the run of
    [find_object] around the run of [estimate]. *)
Lemma find_object_around_estimate msg mapMsg st img_ptr obj scene tr color :
  toCvCopy cv msg = Some img_ptr ->
  frame_correspondences st img_ptr = Some (obj, scene) ->
  estimate img_ptr obj scene st = (tr, Ret color st) ->
  find_object msg mapMsg st
  = (front_trace st msg img_ptr ++ tr ++ [E_imshow color; E_waitKey 1],
     Ret placeholder st).
Proof.
  intros Hdec Hcor Hest. rewrite find_object_run, Hdec, Hcor, Hest. reflexivity.
Qed.

(** X5. What is drawn and shown for a decoded frame.  When the solver or
    the projection raises, nothing is drawn and the picture shown is the
    frame as decoded.  When both succeed, the node draws the closed outline
    through the projections of the corners (0,0), (W,0), (W,H), (0,H) of
    the calibration image, in that order, each segment starting where the
    previous one ended, and shows the frame with those four lines.  Either
    way exactly one picture is shown. *)
Theorem picture_shown msg mapMsg st img_ptr obj scene :
  toCvCopy cv msg = Some img_ptr ->
  frame_correspondences st img_ptr = Some (obj, scene) ->
  (homography_raises cv obj scene = true ->
   segments (fst (find_object msg mapMsg st)) = [] /\
   shown (fst (find_object msg mapMsg st)) = [img_ptr]) /\
  (forall H f,
      findHomography cv obj scene = Some H ->
      perspectiveTransform cv H = Some f ->
      let c0 := f (cvPoint 0 0) in
      let c1 := f (cvPoint (cols cv (obj_img st)) 0) in
      let c2 := f (cvPoint (cols cv (obj_img st)) (rows cv (obj_img st))) in
      let c3 := f (cvPoint 0 (rows cv (obj_img st))) in
      segments (fst (find_object msg mapMsg st))
        = [(c0, c1); (c1, c2); (c2, c3); (c3, c0)] /\
      shown (fst (find_object msg mapMsg st))
        = [line cv (line cv (line cv (line cv img_ptr c0 c1) c1 c2) c2 c3) c3 c0] /\
      localization (fst (find_object msg mapMsg st)) = Found [c0; c1; c2; c3]).
Proof.
  intros Hdec Hcor.
  assert (Hft : segments (front_trace st msg img_ptr) = []
                /\ shown (front_trace st msg img_ptr) = []
                /\ line_starts (front_trace st msg img_ptr) = [])
    by (repeat split; reflexivity).
  destruct Hft as (Hfs & Hfp & Hfl).
  pose proof (estimate_run img_ptr obj scene st) as Hest.
  split.
  - intros Hr. unfold homography_raises in Hr.
    destruct (findHomography cv obj scene) as [H|];
      [destruct (perspectiveTransform cv H) as [f|]; [discriminate|]|];
      rewrite (@find_object_around_estimate msg mapMsg st img_ptr _ _ _ _ Hdec Hcor Hest); cbn [fst];
      rewrite !segments_app, !shown_app, Hfs, Hfp; split; reflexivity.
  - intros H f HH Hf. rewrite HH, Hf in Hest.
    rewrite (@find_object_around_estimate msg mapMsg st img_ptr _ _ _ _ Hdec Hcor Hest); cbn [fst].
    unfold localization.
    rewrite !segments_app, !shown_app, !line_starts_app, Hfs, Hfp, Hfl.
    repeat split; reflexivity.
Qed.

(** X12. No good match is no fault.  When the filter keeps nothing (the
    matcher found nothing, or an exact match emptied the filter), no
    keypoint is read: [find_object] calls the solver once, on two empty
    point vectors, and returns the placeholder with the fields untouched,
    whatever the matcher's indices were. *)
Theorem no_good_match_is_safe msg mapMsg st img_ptr :
  toCvCopy cv msg = Some img_ptr ->
  MatchFilter.good_matches (frame_matches st img_ptr) = [] ->
  frame_correspondences st img_ptr = Some ([], []) /\
  exists tr,
    find_object msg mapMsg st
    = (front_trace st msg img_ptr ++ E_findHomography [] [] :: tr,
       Ret placeholder st) /\
    solver_count (fst (find_object msg mapMsg st)) = 1%nat.
Proof.
  intros Hdec Hgood.
  assert (Hcor : frame_correspondences st img_ptr = Some ([], [])).
  { unfold frame_correspondences. rewrite Hgood. reflexivity. }
  split; [exact Hcor|].
  pose proof (estimate_run img_ptr [] [] st) as Hest.
  destruct (findHomography cv [] []) as [H|];
    [destruct (perspectiveTransform cv H) as [f|]|];
    rewrite (@find_object_around_estimate msg mapMsg st img_ptr _ _ _ _ Hdec Hcor Hest);
    eexists; (split; [reflexivity|]); reflexivity.
Qed.

Lemma imreads_app (tr1 tr2 : list (event cv)) :
  imreads (tr1 ++ tr2) = imreads tr1 ++ imreads tr2.
Proof.
  induction tr1 as [|e tr1 IH]; [reflexivity|].
  destruct e; simpl; rewrite IH; reflexivity.
Qed.

Lemma find_object_reads_no_file msg mapMsg st :
  imreads (fst (find_object msg mapMsg st)) = [].
Proof.
  rewrite find_object_run.
  destruct (toCvCopy cv msg) as [img_ptr|]; [|reflexivity].
  destruct (frame_correspondences st img_ptr) as [[obj scene]|]; [|reflexivity].
  rewrite estimate_run.
  destruct (findHomography cv obj scene) as [H|];
    [destruct (perspectiveTransform cv H) as [f|]|]; reflexivity.
Qed.

Lemma detect_reads_no_file st : imreads (fst (detect st)) = [].
Proof.
  rewrite detect_run.
  destruct (lastImageFrame st) as [msg|]; [|reflexivity].
  pose proof (find_object_reads_no_file msg (lastMapFrame st) st) as Hf.
  destruct (find_object msg (lastMapFrame st) st) as [tr [p st'|e st'|c|]];
    exact Hf.
Qed.

(** The loop reads no file and decodes at most one frame a turn. *)
Lemma main_loop_reads_no_file (turns : list (list (callback cv))) :
  forall st,
    imreads (fst (main_loop turns st)) = [] /\
    (decode_count (fst (main_loop turns st)) <= List.length turns)%nat.
Proof.
  induction turns as [|pending later IH]; intros st; [simpl; split; [reflexivity|lia]|].
  simpl. rewrite bind_run, spinOnce_run. simpl. rewrite bind_run.
  pose proof (detect_reads_no_file (after_deliveries pending st)) as Hr.
  pose proof (detect_counts (after_deliveries pending st)) as Hd.
  destruct (detect (after_deliveries pending st)) as [tr [u st'|e st'|c|]];
    simpl in *;
    destruct (lastImageFrame (after_deliveries pending st));
    rewrite ?imreads_app, ?decode_count_app, ?Hr;
    try destruct (IH st') as [-> Hle]; split; try reflexivity; lia.
Qed.

(** X10. The calibration image is read once, first, and never again.  The
    only file a run of [main] reads is the second of the arguments that
    [ros::init] leaves, once, before the loop; with fewer than two
    arguments left nothing is read or decoded and the run ends with status
    -1.  The loop decodes at most one frame a turn, and when [main] returns
    it returns 0 with the reference model still the one built from that
    file. *)
Theorem calibration_image_read_once (ros_init : list string -> list string)
        (argv : list string) (turns : list (list (callback cv))) :
  imreads (fst (main ros_init argv turns))
    = match ros_init argv with
      | _ :: calib_image_name :: _ => [calib_image_name]
      | _ => []
      end /\
  (decode_count (fst (main ros_init argv turns)) <= List.length turns)%nat /\
  (forall c st',
      snd (main ros_init argv turns) = Ret c st' ->
      c = 0%Z /\
      exists a calib_image_name rest,
        ros_init argv = a :: calib_image_name :: rest /\
        reference st' = reference (ObjDetector_new cv calib_image_name)) /\
  ((List.length (ros_init argv) < 2)%nat ->
   snd (main ros_init argv turns) = Exit (-1) /\
   decode_count (fst (main ros_init argv turns)) = 0%nat).
Proof.
  unfold main.
  destruct (ros_init argv) as [|a [|calib rest]].
  - simpl. repeat split; try lia; discriminate.
  - simpl. repeat split; try lia; discriminate.
  - unfold construct. rewrite bind_run.
    destruct (main_loop_reads_no_file turns (ObjDetector_new cv calib))
      as [Hread Hdec].
    pose proof (@main_loop_keeps cv turns (ObjDetector_new cv calib)) as Hkeep.
    destruct (main_loop turns (ObjDetector_new cv calib)) as [tr r] eqn:Hrun.
    specialize (Hkeep _ _ eq_refl).
    cbn [fst snd] in *.
    destruct r as [u st1|e st1|c1|]; cbn [fst snd ret app imreads decode_count];
      rewrite ?app_nil_r, ?Hread;
      repeat split; intros; try discriminate; try congruence;
      try (simpl in *; lia).
    exists a, calib, rest. split; [reflexivity|]. congruence.
Qed.

End Endings.

(** ** The further properties on concrete frames *)

Lemma threshold_is_300_beyond_100_witness :
  MatchFilter.min_dist Fixture.distant_matches = 100%float /\
  MatchFilter.threshold Fixture.distant_matches = 300%float /\
  MatchFilter.good_matches Fixture.distant_matches
    = filter (fun m => PrimFloat.ltb (distance m) 300%float)
             Fixture.distant_matches.
Proof.
  apply (@threshold_is_300_beyond_100 Fixture.distant_matches).
  repeat constructor.
Defined.

(** Distances 5, 0, 7: the exact match drags the threshold to 0 and all
    three matches are dropped. *)
Lemma exact_match_empties_filter_witness :
  MatchFilter.min_dist Fixture.exact_matches = 0%float /\
  MatchFilter.threshold Fixture.exact_matches = 0%float /\
  MatchFilter.good_matches Fixture.exact_matches = [].
Proof.
  apply (@exact_match_empties_filter Fixture.exact_matches).
  - repeat constructor; right; reflexivity.
  - apply Exists_cons_tl, Exists_cons_hd. reflexivity.
Defined.

(** Frame 1 of the stand-in: the outline of the 8 x 6 calibration image. *)
Lemma picture_shown_witness :
  localization (fst (find_object (cv:=Fixture.cv) 1%Z None Fixture.start))
  = Found [mkPoint2f 0 0; mkPoint2f 8 0; mkPoint2f 8 6; mkPoint2f 0 6].
Proof.
  exact (proj2 (proj2
           (proj2 (@picture_shown Fixture.cv 1%Z None Fixture.start 1%Z
                     [mkPoint2f 0 0; mkPoint2f 8 0; mkPoint2f 8 6; mkPoint2f 0 6]
                     [mkPoint2f 0 0; mkPoint2f 8 0; mkPoint2f 8 6; mkPoint2f 0 6]
                     eq_refl eq_refl)
                  0%Z (fun p => p) eq_refl eq_refl))).
Defined.

Lemma quiet_turns_call_nothing_witness :
  exists st',
    main_loop Fixture.idle_turns Fixture.start = ([], Ret tt st') /\
    lastImageFrame st' = None /\
    reference st' = reference Fixture.start.
Proof.
  apply (@quiet_turns_call_nothing Fixture.cv Fixture.idle_turns Fixture.start).
  - reflexivity.
  - repeat constructor.
Defined.

(** The blank frame 0 of the stand-in. *)
Lemma no_good_match_is_safe_witness :
  frame_correspondences Fixture.start 0%Z = Some ([], []) /\
  exists tr,
    find_object (cv:=Fixture.cv) 0%Z None Fixture.start
    = (front_trace Fixture.start 0%Z 0%Z ++ E_findHomography [] [] :: tr,
       Ret placeholder Fixture.start) /\
    solver_count (fst (find_object (cv:=Fixture.cv) 0%Z None Fixture.start)) = 1%nat.
Proof.
  exact (@no_good_match_is_safe Fixture.cv 0%Z None Fixture.start 0%Z
           eq_refl eq_refl).
Defined.

(** A command line without remapping arguments: the calibration image is
    the only file read over the whole session. *)
Lemma calibration_image_read_once_witness :
  imreads (fst (main (cv:=Fixture.cv) Fixture.no_remapping
                     ["object_recognizer"%string; "object.png"%string]
                     Fixture.session))
  = ["object.png"%string].
Proof.
  exact (proj1 (@calibration_image_read_once Fixture.cv Fixture.no_remapping
                  ["object_recognizer"%string; "object.png"%string]
                  Fixture.session)).
Defined.
